(** * Evaluation-summary, failure-extraction and assertion-patching scripts

  A shallow embedding of the four Node scripts of the repository
  (generate-summary.js, extract-failures.js, generate-analysis-html.js and
  refine-assertions.js) and the properties of their core: segmentation of
  the test YAML, verdicts, aggregation per specification, failure
  extraction and in-place patching of refined assertions.

  JavaScript strings are sequences of UTF-16 code units; they are modelled
  as [list N].  Files are read and written whole with the 'utf8' encoding,
  which is a bijection between well-formed UTF-8 and the code-unit
  sequences it decodes to, so equality of code-unit sequences is equality
  of the file bytes for UTF-8 documents. *)

From Stdlib Require Import ZArith NArith QArith List Ascii String Lia.
From Stdlib Require DecimalString.
From Stdlib Require PrimFloat Uint63.
From stdpp Require Import gmap strings list fin_maps.

Set Warnings "-register-all".
Local Open Scope N_scope.

(** ** JavaScript strings *)

Module JsString.

Abbreviation jsstring := (list N).

(** A string literal of the source, ASCII only. *)
Definition js (s : string) : jsstring :=
  map N_of_ascii (list_ascii_of_string s).
Arguments js : simpl never.

Definition nl : N := 10.
Definition quote : N := 39.
Definition dquote : N := 34.

(** LineTerminator of ECMAScript: the characters [.] does not match. *)
Definition is_line_terminator (c : N) : bool :=
  (c =? 10) || (c =? 13) || (c =? 8232) || (c =? 8233).

(** WhiteSpace and LineTerminator of ECMAScript: what [\s] matches and
    what [String.prototype.trim] removes. *)
Definition is_space (c : N) : bool :=
  ((9 <=? c) && (c <=? 13)) || (c =? 32) || (c =? 160) || (c =? 5760)
  || ((8192 <=? c) && (c <=? 8202)) || (c =? 8232) || (c =? 8233)
  || (c =? 8239) || (c =? 8287) || (c =? 12288) || (c =? 65279).

Definition eqb_str (a b : jsstring) : bool := bool_decide (a = b).

(** [strip_prefix p s] is [Some r] when [s = p ++ r]. *)
Fixpoint strip_prefix (p s : jsstring) : option jsstring :=
  match p, s with
  | [], _ => Some s
  | _ :: _, [] => None
  | a :: p', b :: s' => if a =? b then strip_prefix p' s' else None
  end.

Definition starts_with (p s : jsstring) : bool :=
  match strip_prefix p s with Some _ => true | None => false end.

(** [s.includes(needle)] *)
Fixpoint includes (needle s : jsstring) : bool :=
  starts_with needle s
  || match s with [] => false | _ :: r => includes needle r end.

(** The longest prefix of [s] whose characters satisfy [p], and the rest. *)
Fixpoint span (p : N -> bool) (s : jsstring) : jsstring * jsstring :=
  match s with
  | [] => ([], [])
  | c :: r => if p c then let '(a, b) := span p r in (c :: a, b)
              else ([], s)
  end.

(** [s.trim()] *)
Definition trim_start (s : jsstring) : jsstring := snd (span is_space s).
Definition trim_end (s : jsstring) : jsstring := rev (trim_start (rev s)).
Definition trim (s : jsstring) : jsstring := trim_end (trim_start s).

(** [s.slice(0, n)] for a string *)
Definition slice0 (n : nat) (s : jsstring) : jsstring := take n s.

(** [parts.join(sep)] *)
Fixpoint join (sep : jsstring) (parts : list jsstring) : jsstring :=
  match parts with
  | [] => []
  | x :: rest =>
      match rest with
      | [] => x
      | _ :: _ => x ++ sep ++ join sep rest
      end
  end.

(** [s.split(re)] for a pattern [re] that consumes exactly one character
    [c] and then looks ahead at the rest: [at_sep c rest] tells whether
    [re] matches at [c :: rest].  The empty string splits into one empty
    piece, as in JavaScript when [re] cannot match the empty string. *)
Fixpoint split_at (at_sep : N -> jsstring -> bool) (s : jsstring)
  : list jsstring :=
  match s with
  | [] => [[]]
  | c :: rest =>
      if at_sep c rest then [] :: split_at at_sep rest
      else match split_at at_sep rest with
           | piece :: pieces => (c :: piece) :: pieces
           | [] => [[c]]
           end
  end.

(** Number of places where [split_at] cuts. *)
Fixpoint count_sep (at_sep : N -> jsstring -> bool) (s : jsstring) : nat :=
  match s with
  | [] => O
  | c :: rest => ((if at_sep c rest then 1 else 0) + count_sep at_sep rest)%nat
  end.

(** [s.split('\n')] *)
Definition split_lines (s : jsstring) : list jsstring :=
  split_at (fun c _ => c =? nl) s.

End JsString.
Import JsString.

(** ** Document Segmenter: the split of loadYAML and patchYaml *)

Module Segmenter.

(** The lookahead [-\s+vars:] of the pattern [/\n(?=-\s+vars:)/]: a dash,
    one or more white-space characters, then [vars:].  As [v] is not
    white space, [\s+] can only take the whole white-space run. *)
Definition marker_at (s : jsstring) : bool :=
  match s with
  | c :: r =>
      (c =? 45)
      && (let '(ws, r') := span is_space r in
          match ws with
          | [] => false
          | _ :: _ => starts_with (js "vars:") r'
          end)
  | [] => false
  end.

Definition at_block_sep (c : N) (rest : jsstring) : bool :=
  (c =? nl) && marker_at rest.

(** [raw.split(/\n(?=-\s+vars:)/)] *)
Definition split_blocks (raw : jsstring) : list jsstring :=
  split_at at_block_sep raw.

(** The first statement of loadYAML (generate-summary.js and
    generate-analysis-html.js):
    [raw.split(/\n(?=-\s+vars:)/).filter(b => b.includes('vars:'))] *)
Definition testBlocks (raw : jsstring) : list jsstring :=
  List.filter (includes (js "vars:")) (split_blocks raw).

(** Record markers preceded by a newline, and record markers at a line
    start (the start of the document is a line start as well). *)
Definition count_nl_markers (raw : jsstring) : nat :=
  count_sep at_block_sep raw.

Definition count_markers (raw : jsstring) : nat :=
  ((if marker_at raw then 1 else 0) + count_nl_markers raw)%nat.

End Segmenter.
Import Segmenter.

(** ** JSON values and the JavaScript operations the scripts apply to them *)

Module Js.

(** What [JSON.parse] returns, plus [undefined] for an absent property.
    Numbers are the integers (the scripts only test and print them):
    [VNum n] is the Number that [JSON.parse] reads from the integer literal
    [n], the double nearest to it.  The fields of an object are its own
    properties, looked up from the left; a parsed object has each key
    once. *)
Inductive value : Type :=
| VUndefined
| VNull
| VBool (b : bool)
| VNum (n : Z)
| VStr (s : jsstring)
| VArr (items : list value)
| VObj (fields : list (jsstring * value)).

Inductive error : Type :=
| TypeError        (* a property of undefined/null is read, or a non-function is called *)
| ENOENT           (* fs.readFileSync on a path that does not exist *)
| NoTestsSection.  (* new Error('Could not find "tests:" section in YAML') *)

Inductive res (A : Type) : Type :=
| Ok (a : A)
| Throw (e : error).
Arguments Ok {A} a.
Arguments Throw {A} e.

Definition bind {A B : Type} (c : res A) (k : A -> res B) : res B :=
  match c with
  | Ok a => k a
  | Throw e => Throw e
  end.

Notation "'let!' x ':=' c 'in' k" := (bind c (fun x => k))
  (at level 10, x name, c at level 100, k at level 200).

(** ToBoolean *)
Definition truthy (v : value) : bool :=
  match v with
  | VUndefined | VNull => false
  | VBool b => b
  | VNum n => negb (n =? 0)%Z
  | VStr s => match s with [] => false | _ :: _ => true end
  | VArr _ | VObj _ => true
  end.

(** [v === true] and [v === false] *)
Definition strict_true (v : value) : bool :=
  match v with VBool true => true | _ => false end.

Definition strict_false (v : value) : bool :=
  match v with VBool false => true | _ => false end.

(** [a || b] once both are evaluated (the right operand has no effect). *)
Definition or_else (a b : value) : value := if truthy a then a else b.

Fixpoint assoc (k : jsstring) (fields : list (jsstring * value)) : value :=
  match fields with
  | [] => VUndefined
  | (k', v) :: rest => if eqb_str k' k then v else assoc k rest
  end.

(** [v.k] for the property names the scripts read (success, pass,
    gradingResult, componentResults, assertion, value, reason, testCase,
    vars, input, response, output): none of them is defined on the
    prototypes of objects, arrays, strings, numbers or booleans, so only an
    own property of an object has a value. *)
Definition get (v : value) (k : string) : res value :=
  match v with
  | VUndefined | VNull => Throw TypeError
  | VObj fields => Ok (assoc (js k) fields)
  | _ => Ok VUndefined
  end.

(** [a && a.k] *)
Definition and_get (a : value) (k : string) : res value :=
  if truthy a then get a k else Ok a.

(** The decimal digits of an integer. *)
Definition Z_to_js (n : Z) : jsstring :=
  js (DecimalString.NilZero.string_of_int (Z.to_int n)).

(** The Number value of a non-negative integer: the nearest double, ties
    to the even significand of 53 bits; [None] stands for Infinity. *)
Definition nearest_double (p : Z) : option Z :=
  let e := (Z.log2 p - 52)%Z in
  if (e <=? 0)%Z then Some p
  else
    let q := Z.shiftr p e in
    let r := (p - Z.shiftl q e)%Z in
    let half := Z.shiftl 1 (e - 1) in
    let m := if (r <? half)%Z then q
             else if (half <? r)%Z then (q + 1)%Z
             else if Z.even q then q else (q + 1)%Z in
    let x := Z.shiftl m e in
    if (x <? 2 ^ 1024)%Z then Some x else None.

Definition reads_as (x v : Z) : bool :=
  match nearest_double v with
  | Some y => (y =? x)%Z
  | None => false
  end.

(** Number::toString chooses, for the double [x], the decimal with the
    fewest significant digits whose Number value is [x], and among those
    the one nearest to [x].  [shortest d x], for [x] of [d] digits, tries
    the multiples of [10 ^ d], then of [10 ^ (d - 1)], and so on: the two
    multiples around [x] are the only candidates; with unit 1 the decimal
    is [x] itself. *)
Fixpoint shortest (d : nat) (x : Z) : Z :=
  match d with
  | O => x
  | S e =>
      let unit := (10 ^ Z.of_nat d)%Z in
      let lo := (x / unit * unit)%Z in
      let hi := (lo + unit)%Z in
      if (0 <? lo)%Z && reads_as x lo then
        if reads_as x hi then
          if (x - lo <? hi - x)%Z then lo
          else if (hi - x <? x - lo)%Z then hi
          else if Z.even (x / unit) then lo else hi
        else lo
      else if reads_as x hi then hi
      else shortest e x
  end.

Fixpoint strip_zeros (rev_digits : jsstring) : jsstring :=
  match rev_digits with
  | c :: r => if c =? 48 then strip_zeros r else rev_digits
  | [] => []
  end.

(** The digits of a positive integer double: in full below [10 ^ 21], and
    from there on as [d.ddde+n]. *)
Definition print_double (x : Z) : jsstring :=
  let v := shortest (length (Z_to_js x)) x in
  if (v <? 10 ^ 21)%Z then Z_to_js v
  else
    let ds := Z_to_js v in
    let e := Z_to_js (Z.of_nat (length ds) - 1) in
    match rev (strip_zeros (rev ds)) with
    | [] => []
    | [d] => [d] ++ js "e+" ++ e
    | d :: more => [d] ++ js "." ++ more ++ js "e+" ++ e
    end.

(** [String(n)] for a number *)
Definition number_to_string (n : Z) : jsstring :=
  if (n =? 0)%Z then js "0"
  else
    let sign := if (n <? 0)%Z then js "-" else [] in
    match nearest_double (Z.abs n) with
    | Some x => sign ++ print_double x
    | None => sign ++ js "Infinity"
    end.

(** [k in fields] for the own properties of a parsed object. *)
Definition has_own (k : jsstring) (fields : list (jsstring * value)) : bool :=
  existsb (fun kv => eqb_str (fst kv) k) fields.

(** [l.map(f)] for an [f] that may throw: the first error ends it. *)
Definition map_res {A B : Type} (f : A -> res B) : list A -> res (list B) :=
  fix go (l : list A) : res (list B) :=
    match l with
    | [] => Ok []
    | x :: rest =>
        let! y := f x in
        let! ys := go rest in
        Ok (y :: ys)
    end.

(** [String(v)].  An array is joined with commas, [null] and [undefined]
    elements giving the empty text.  An object is converted by the
    [toString] it has: without an own property of that name it is the one
    of Object.prototype, which gives [[object Object]]; an own property
    [toString] of a parsed object is not a function, and neither it nor
    [valueOf] then gives a primitive, so that the conversion throws a
    TypeError. *)
Fixpoint to_string (v : value) : res jsstring :=
  match v with
  | VUndefined => Ok (js "undefined")
  | VNull => Ok (js "null")
  | VBool true => Ok (js "true")
  | VBool false => Ok (js "false")
  | VNum n => Ok (number_to_string n)
  | VStr s => Ok s
  | VArr items =>
      let! parts :=
        map_res (fun x => match x with
                          | VUndefined | VNull => Ok []
                          | _ => to_string x
                          end) items in
      Ok (join (js ",") parts)
  | VObj fields =>
      if has_own (js "toString") fields then Throw TypeError
      else Ok (js "[object Object]")
  end.

(** [v.slice(0, n)]: defined on strings and arrays only. *)
Definition slice (n : nat) (v : value) : res value :=
  match v with
  | VStr s => Ok (VStr (slice0 n s))
  | VArr items => Ok (VArr (take n items))
  | _ => Throw TypeError
  end.

(** The verdict expression shared by the three scripts:
    [r.success === true || r.pass === true
       || (r.gradingResult && r.gradingResult.pass === true)] *)
Definition verdict_value (r : value) : res value :=
  let! s := get r "success" in
  if strict_true s then Ok (VBool true) else
  let! p := get r "pass" in
  if strict_true p then Ok (VBool true) else
  let! g := get r "gradingResult" in
  if truthy g then let! gp := get g "pass" in Ok (VBool (strict_true gp))
  else Ok g.

End Js.
Import Js.

(** ** generate-summary.js: correlation, aggregation, recommendations *)

Module Summary.

(** A test as loadYAML builds it:
    [{ metadata: { spec_requirements: [...], requirement: '...' } }]. *)
Record Metadata : Type := {
  spec_requirements : list jsstring;
  requirement : jsstring
}.

Record Test : Type := { metadata : Metadata }.

(** [{ index: i + 1, success, requirement: meta.requirement || '' }] *)
Record Case : Type := {
  case_index : nat;
  case_success : value;
  case_requirement : jsstring
}.

(** [{ pass: 0, fail: 0, cases: [] }] *)
Record Group : Type := {
  pass : nat;
  fail : nat;
  cases : list Case
}.

(** The objects the loop of main can reach: the result array, the tests of
    the configuration and the accumulator [bySpec]. *)
Record store : Type := {
  results : list value;
  tests : list Test;
  bySpec : gmap jsstring Group
}.

(** Property names that every object literal inherits from
    Object.prototype: for such a key [bySpec[key]] is a built-in function or
    object, truthy, although [bySpec] has no own property of that name. *)
Definition inherited_names : list jsstring :=
  map js [ "constructor"; "__proto__"; "hasOwnProperty"; "isPrototypeOf";
           "propertyIsEnumerable"; "toLocaleString"; "toString"; "valueOf";
           "__defineGetter__"; "__defineSetter__"; "__lookupGetter__";
           "__lookupSetter__" ]%string.

Definition inherited (k : jsstring) : bool :=
  bool_decide (k ∈ inherited_names).

(** [const test = tests[i] || {}; const meta = test.metadata || {};
     const specs = meta.spec_requirements || ['unknown'];
     const specKey = Array.isArray(specs) ? specs[0] : String(specs);]
    An empty array gives [undefined], which as a property key reads
    "undefined". *)
Definition specKey_of (tests : list Test) (i : nat) : jsstring :=
  let specs :=
    match tests !! i with
    | Some test => spec_requirements (metadata test)
    | None => [js "unknown"]
    end in
  match specs with
  | k :: _ => k
  | [] => js "undefined"
  end.

(** [meta.requirement || ''] *)
Definition requirement_of (tests : list Test) (i : nat) : jsstring :=
  match tests !! i with
  | Some test => requirement (metadata test)
  | None => []
  end.

Definition new_group : Group := {| pass := 0; fail := 0; cases := [] |}.

(** [if (success) g.pass++; else g.fail++; g.cases.push({...})] *)
Definition record_case (g : Group) (c : Case) : Group :=
  if truthy (case_success c)
  then {| pass := S (pass g); fail := fail g; cases := cases g ++ [c] |}
  else {| pass := pass g; fail := S (fail g); cases := cases g ++ [c] |}.

(** The callback of [results.forEach((r, i) => {...})].  When [specKey] is
    an inherited name, [bySpec[specKey]] is not created, and pushing on the
    [cases] of the built-in it denotes throws a TypeError. *)
Definition callback (st : store) (i : nat) (r : value) : res store :=
  let specKey := specKey_of (tests st) i in
  let bySpec1 :=
    match bySpec st !! specKey with
    | Some _ => bySpec st
    | None => if inherited specKey then bySpec st
              else <[specKey := new_group]> (bySpec st)
    end in
  let! success := verdict_value r in
  match bySpec1 !! specKey with
  | None => Throw TypeError
  | Some g =>
      let c := {| case_index := i + 1; case_success := success;
                  case_requirement := requirement_of (tests st) i |} in
      Ok {| results := results st; tests := tests st;
            bySpec := <[specKey := record_case g c]> bySpec1 |}
  end.

(** [results.forEach(callback)]: the length is read once, the elements are
    read from the array as the loop reaches them. *)
Fixpoint forEach_results (n i : nat) (st : store) : res store :=
  match n with
  | O => Ok st
  | S n' =>
      match results st !! i with
      | Some r => let! st' := callback st i r in forEach_results n' (S i) st'
      | None => forEach_results n' (S i) st
      end
  end.

(** The loop of main over the result collection [R] and the tests [T]. *)
Definition aggregate (R : list value) (T : list Test) : res store :=
  forEach_results (length R) 0 {| results := R; tests := T; bySpec := ∅ |}.

(** [Object.values(bySpec).forEach(s => { totalPass += s.pass;
     totalFail += s.fail; })] *)
Definition totalPass (b : gmap jsstring Group) : nat :=
  map_fold (fun _ g acc => (acc + pass g)%nat) O b.

Definition totalFail (b : gmap jsstring Group) : nat :=
  map_fold (fun _ g acc => (acc + fail g)%nat) O b.

Definition total (b : gmap jsstring Group) : nat :=
  (totalPass b + totalFail b)%nat.

(** The recommendation lines of getRecommendations, by their leading words
    (the texts are constants of the source, except for the list of weak
    specifications). *)
Inductive recommendation : Type :=
| RunGenerate        (* '- Run `specalign generate` and ensure ...' *)
| LowPassRate        (* '- **Low pass rate**: Prefer semantic assertions ...' *)
| ModeratePassRate   (* '- **Moderate pass rate**: Focus on specs ...' *)
| GoodBaseline       (* '- **Good baseline**: Consider adding more ...' *)
| WeakSpecs (specs : list jsstring)  (* '- **Specs with <50% pass**: ...' *)
| DownloadArtifact   (* '- Download the **promptfoo-results** artifact ...' *)
| ImprovePrompt.     (* '- To improve results: refine the **prompt** ...' *)

Definition Qltb (x y : Q) : bool := negb (Qle_bool y x).

(** [n ? (p / n) * 100 : 0].  The source computes in double precision; for
    counts of array elements the comparisons of the result with 40, 50 and
    70 agree with the exact rational comparisons made here. *)
Definition rate (p n : nat) : Q :=
  match n with
  | O => 0%Q
  | S _ => ((inject_Z (Z.of_nat p) / inject_Z (Z.of_nat n)) * 100)%Q
  end.

(** The same expression in double precision, as the source evaluates it
    (the counts are below 2^53, where integers are doubles). *)
Definition double_of_nat (n : nat) : PrimFloat.float :=
  PrimFloat.of_uint63 (Uint63.of_Z (Z.of_nat n)).

Definition rate_double (p n : nat) : PrimFloat.float :=
  match n with
  | O => PrimFloat.zero
  | S _ =>
      PrimFloat.mul (PrimFloat.div (double_of_nat p) (double_of_nat n))
        (double_of_nat 100)
  end.

(** [Object.entries(bySpec).map(...).filter(({ rate }) => rate < 50 && rate >= 0)];
    the enumeration order of the finite map stands for the property order
    of the object. *)
Definition weakSpecs (b : gmap jsstring Group) : list jsstring :=
  map fst
    (List.filter
       (fun kg : jsstring * Group =>
          let rt := rate (pass (snd kg)) (pass (snd kg) + fail (snd kg)) in
          Qltb rt 50 && Qle_bool 0 rt)
       (map_to_list b)).

Definition getRecommendations (b : gmap jsstring Group)
    (totalPass totalFail total : nat) : list recommendation :=
  let passRate := rate totalPass total in
  match total with
  | O => [RunGenerate]
  | S _ =>
      (if Qltb passRate 40 then [LowPassRate]
       else if Qltb passRate 70 then [ModeratePassRate]
       else if Qle_bool 70 passRate then [GoodBaseline]
       else [])
      ++ (match weakSpecs b with
          | [] => []
          | w :: ws => [WeakSpecs (w :: ws)]
          end)
      ++ [DownloadArtifact; ImprovePrompt]
  end.

End Summary.
Import Summary.

(** ** extract-failures.js *)

Module Extract.

(** [{ testIndex, input, output, failingAssertion, reason }] *)
Record FailureRecord : Type := {
  testIndex : nat;
  input : jsstring;
  output : jsstring;
  failingAssertion : value;
  reason : value
}.

(** The sentinel '—' (U+2014). *)
Definition sentinel : jsstring := [8212].

(** [items.find(c => c.pass === false)] on the elements of an array. *)
Fixpoint find_failed (items : list value) : res value :=
  match items with
  | [] => Ok VUndefined
  | c :: rest =>
      let! p := get c "pass" in
      if strict_false p then Ok c else find_failed rest
  end.

(** [cr.find(c => c.pass === false)]: only arrays have [find]. *)
Definition find_failed_in (cr : value) : res value :=
  match cr with
  | VArr items => find_failed items
  | _ => Throw TypeError
  end.

(** The first part of the callback: the pair [(failingAssertion, reason)]
    after the [if (r.gradingResult && r.gradingResult.componentResults)]
    statement. *)
Definition from_components (g : value) : res (value * value) :=
  let! cr := and_get g "componentResults" in
  if truthy cr then
    let! failed := find_failed_in cr in
    if truthy failed then
      let! a := get failed "assertion" in
      let! v := and_get a "value" in
      let! fr := get failed "reason" in
      Ok (v, or_else fr (VStr []))
    else Ok (VNull, VStr [])
  else Ok (VNull, VStr []).

(** [if (!failingAssertion && r.gradingResult) reason = r.gradingResult.reason || ''] *)
Definition top_level_reason (g fa reason1 : value) : res value :=
  if negb (truthy fa) && truthy g then
    let! gr := get g "reason" in Ok (or_else gr (VStr []))
  else Ok reason1.

(** [(r.testCase && r.testCase.vars && r.testCase.vars.input)
       ? String(r.testCase.vars.input) : ''] *)
Definition input_of (r : value) : res jsstring :=
  let! tc := get r "testCase" in
  let! vars := and_get tc "vars" in
  let! inp := and_get vars "input" in
  if truthy inp then to_string inp else Ok [].

(** [(r.response && r.response.output) ? String(r.response.output) : ''] *)
Definition output_of (r : value) : res jsstring :=
  let! resp := get r "response" in
  let! out := and_get resp "output" in
  if truthy out then to_string out else Ok [].

(** The callback of [resultsArray.forEach((r, i) => {...})]: [None] when
    the entry passes (nothing is pushed), the pushed record otherwise. *)
Definition extract_one (i : nat) (r : value) : res (option FailureRecord) :=
  let! pass := verdict_value r in
  if truthy pass then Ok None else
  let! g := get r "gradingResult" in
  let! far := from_components g in
  let! reason2 := top_level_reason g (fst far) (snd far) in
  let! inp := input_of r in
  let! out := output_of r in
  let! reason300 := slice 300 reason2 in
  Ok (Some {| testIndex := i + 1;
              input := slice0 500 inp;
              output := slice0 800 out;
              failingAssertion :=
                or_else (fst far) (or_else reason2 (VStr sentinel));
              reason := reason300 |}).

Fixpoint extract_from (i : nat) (rs : list value) (failures : list FailureRecord)
  : res (list FailureRecord) :=
  match rs with
  | [] => Ok failures
  | r :: rest =>
      let! o := extract_one i r in
      extract_from (S i) rest
        (match o with Some f => failures ++ [f] | None => failures end)
  end.

(** The loop of main: [const failures = []; resultsArray.forEach(...)]. *)
Definition extract_failures (resultsArray : list value) : res (list FailureRecord) :=
  extract_from 0 resultsArray [].

End Extract.
Import Extract.

(** ** refine-assertions.js: patchYaml *)

Module Patch.

(** The failures and refinements patchYaml reads: of a failure only
    [testIndex] and [failingAssertion], of a refinement [testIndex] and
    [refinedAssertion]. *)
Record failure : Type := {
  f_testIndex : Z;
  f_failingAssertion : jsstring
}.

Record refinement : Type := {
  r_testIndex : Z;
  r_refinedAssertion : jsstring
}.

(** [s.replace(/\s+/g, ' ')]: [in_ws] tells that the previous character
    was white space, whose run has already been replaced. *)
Fixpoint collapse_ws (in_ws : bool) (s : jsstring) : jsstring :=
  match s with
  | [] => []
  | c :: r =>
      if is_space c then
        if in_ws then collapse_ws true r else 32 :: collapse_ws true r
      else c :: collapse_ws false r
  end.

(** [(s || '').replace(/\s+/g, ' ').trim()] *)
Definition norm (s : jsstring) : jsstring := trim (collapse_ws false s).

Definition is_quote (c : N) : bool := (c =? quote) || (c =? dquote).

(** [s.replace(/^['"]|['"]$/g, '')]: a quote at the start is removed, then
    a quote at the end of what is left. *)
Definition strip_quotes (s : jsstring) : jsstring :=
  let s1 := match s with
            | c :: r => if is_quote c then r else s
            | [] => []
            end in
  match rev s1 with
  | c :: r => if is_quote c then rev r else s1
  | [] => []
  end.

(** [s.replace(/''/g, "'")] *)
Fixpoint undouble (s : jsstring) : jsstring :=
  match s with
  | [] => []
  | c :: r =>
      match r with
      | c' :: r' =>
          if (c =? quote) && (c' =? quote) then quote :: undouble r'
          else c :: undouble r
      | [] => [c]
      end
  end.

Definition unescapeYamlValue (str : jsstring) : jsstring :=
  match str with
  | [] => []
  | _ :: _ => undouble (strip_quotes (trim str))
  end.

(** ["'" + String(str).replace(/'/g, "''") + "'"] *)
Definition escapeForYaml (str : jsstring) : jsstring :=
  [quote]
  ++ flat_map (fun c => if c =? quote then [quote; quote] else [c]) str
  ++ [quote].

(** [yaml.match(re)] for the pattern of patchYaml, which is: a lazy group
    of any characters that ends in a newline, then [tests:] and a newline,
    then a greedy group of any characters.  The result is the pair of the
    two groups; the lazy first group ends at the first newline that is
    followed by [tests:] and a newline. *)
Fixpoint match_tests (yaml : jsstring) : option (jsstring * jsstring) :=
  match yaml with
  | [] => None
  | c :: rest =>
      match (if c =? nl then strip_prefix (js "tests:" ++ [nl]) rest else None) with
      | Some body => Some ([c], body)
      | None =>
          match match_tests rest with
          | Some (h, body) => Some (c :: h, body)
          | None => None
          end
      end
  end.

(** [line.match(re)] for the pattern of the loop of patchYaml: from the
    start of the line a group of white space, [value:] and white space,
    then a group of one or more characters up to the end of the line.
    The result is the pair of the two groups.
    The first [\s*] takes the whole leading white space ([v] is not white
    space).  The second is greedy but leaves the last white-space
    character to [.+] when nothing else follows; [.] does not match a line
    terminator and [$] is the end of the line, so what follows the white
    space must be free of line terminators. *)
Definition match_value_line (line : jsstring) : option (jsstring * jsstring) :=
  let '(ws1, r1) := span is_space line in
  match strip_prefix (js "value:") r1 with
  | None => None
  | Some r2 =>
      let '(ws2, r3) := span is_space r2 in
      match r3 with
      | _ :: _ =>
          if forallb (fun c => negb (is_line_terminator c)) r3
          then Some (ws1 ++ js "value:" ++ ws2, r3)
          else None
      | [] =>
          match rev ws2 with
          | [] => None
          | c :: before =>
              if is_line_terminator c then None
              else Some (ws1 ++ js "value:" ++ rev before, [c])
          end
      end
  end.

(** Whether the loop body reaches the assignment on this line. *)
Definition line_matches (failNorm line : jsstring) : option jsstring :=
  match match_value_line line with
  | None => None
  | Some (m1, m2) =>
      if eqb_str (norm (unescapeYamlValue (trim m2))) failNorm
      then Some m1 else None
  end.

(** The loop [for (let i = 0; i < lines.length; i++)] with its [continue]
    and [break]. *)
Fixpoint patch_lines (failNorm refined : jsstring) (lines : list jsstring)
  : list jsstring :=
  match lines with
  | [] => []
  | line :: rest =>
      match line_matches failNorm line with
      | Some m1 => (m1 ++ escapeForYaml refined) :: rest
      | None => line :: patch_lines failNorm refined rest
      end
  end.

(** [refinements.forEach(r => { refinementsByIndex[r.testIndex] = r.refinedAssertion; })] *)
Definition refinementsByIndex (refinements : list refinement) : gmap Z jsstring :=
  foldl (fun m r => <[r_testIndex r := r_refinedAssertion r]> m) ∅ refinements.

(** The callback of [failures.forEach(f => {...})] on the array
    [testBlocks]. *)
Definition patch_failure (byIndex : gmap Z jsstring)
    (testBlocks : list jsstring) (f : failure) : list jsstring :=
  let refined := default [] (byIndex !! f_testIndex f) in
  match refined with
  | [] => testBlocks   (* [if (!refined) return]: undefined or empty *)
  | _ :: _ =>
      let blockIdx := (f_testIndex f - 1)%Z in
      if (blockIdx <? 0)%Z || (Z.of_nat (length testBlocks) <=? blockIdx)%Z
      then testBlocks
      else
        match testBlocks !! Z.to_nat blockIdx with
        | None => testBlocks
        | Some block =>
            let failNorm := norm (f_failingAssertion f) in
            let lines := split_lines block in
            <[Z.to_nat blockIdx :=
                join [nl] (patch_lines failNorm refined lines)]> testBlocks
        end
  end.

(** The text patchYaml writes: [header + testBlocks.join('\n')]. *)
Definition patch_text (yaml : jsstring) (failures : list failure)
    (refinements : list refinement) : res jsstring :=
  match match_tests yaml with
  | None => Throw NoTestsSection
  | Some (m1, body) =>
      let header := m1 ++ js "tests:" ++ [nl] in
      let testBlocks := split_blocks body in
      let byIndex := refinementsByIndex refinements in
      let testBlocks' := foldl (patch_failure byIndex) testBlocks failures in
      Ok (header ++ join [nl] testBlocks')
  end.

(** [patchYaml(yamlPath, failures, refinements, outputPath)] on a file
    system: the file system after the call, and whether it threw. *)
Definition patchYaml (fs : gmap jsstring jsstring) (yamlPath : jsstring)
    (failures : list failure) (refinements : list refinement)
    (outputPath : jsstring) : gmap jsstring jsstring * res unit :=
  match fs !! yamlPath with
  | None => (fs, Throw ENOENT)
  | Some yaml =>
      match patch_text yaml failures refinements with
      | Throw e => (fs, Throw e)
      | Ok newYaml => (<[outputPath := newYaml]> fs, Ok tt)
      end
  end.

End Patch.
Import Patch.

(** ** Notions used to state the properties *)

Module Notions.

(** The value of a flag of an entry, [undefined] when it cannot be read. *)
Definition flag (r : value) (k : string) : value :=
  match get r k with
  | Ok v => v
  | Throw _ => VUndefined
  end.

(** The three verdict signals of an entry. *)
Definition success_flag (r : value) : value := flag r "success".
Definition pass_flag (r : value) : value := flag r "pass".
Definition nested_pass_flag (r : value) : value :=
  flag (flag r "gradingResult") "pass".

(** The verdict the scripts act on: the truth value of the verdict
    expression ([if (success)], [if (pass) return]). *)
Definition passes (r : value) : bool :=
  match verdict_value r with
  | Ok v => truthy v
  | Throw _ => false
  end.

(** The verdict rule in the words of the specification: the flags are
    checked in priority order and the first one that is present as a
    boolean decides; without any, the verdict is fail. *)
Fixpoint first_present_boolean (flags : list value) : option bool :=
  match flags with
  | [] => None
  | VBool b :: _ => Some b
  | _ :: rest => first_present_boolean rest
  end.

Definition verdict_by_precedence (r : value) : bool :=
  default false
    (first_present_boolean
       [success_flag r; pass_flag r; nested_pass_flag r]).

(** A JSON object, as every result entry of the evaluation is. *)
Definition is_object (v : value) : bool :=
  match v with VObj _ => true | _ => false end.

(** The group key of a definition record: the first specification it
    names. *)
Definition groupKey (t : Test) : jsstring :=
  match spec_requirements (metadata t) with
  | k :: _ => k
  | [] => js "undefined"
  end.

(** The lines of overall guidance among the recommendations. *)
Definition overall_guidance (recs : list recommendation) : list recommendation :=
  List.filter
    (fun r => match r with
              | LowPassRate | ModeratePassRate | GoodBaseline => true
              | _ => false
              end) recs.

(** The sub-assertions of an entry: the elements of
    [gradingResult.componentResults], none when that is not an array. *)
Definition sub_assertions (r : value) : list value :=
  match flag (flag r "gradingResult") "componentResults" with
  | VArr items => items
  | _ => []
  end.

(** The first sub-assertion with passed = false, [undefined] without one. *)
Definition failed_sub (r : value) : value :=
  default VUndefined
    (List.find (fun c => strict_false (flag c "pass")) (sub_assertions r)).

(** Its assertion text and its reason. *)
Definition assertion_text (r : value) : value :=
  flag (flag (failed_sub r) "assertion") "value".

Definition failed_reason (r : value) : value := flag (failed_sub r) "reason".

(** The top-level reason of the entry. *)
Definition top_reason (r : value) : value :=
  flag (flag r "gradingResult") "reason".

(** The input and the output of the entry: the input variable of its test
    case and the output of its response, [undefined] when absent. *)
Definition entry_input (r : value) : value :=
  flag (flag (flag r "testCase") "vars") "input".

Definition entry_output (r : value) : value :=
  flag (flag r "response") "output".

(** A reason is a text, or absent. *)
Definition textual (v : value) : bool :=
  match v with VStr _ | VUndefined | VNull => true | _ => false end.

Definition text_of (v : value) : jsstring :=
  match v with VStr s => s | _ => [] end.

(** The values that have a text: all but the objects with an own property
    [toString], and the arrays with such an object among their elements,
    at any depth. *)
Fixpoint printable (v : value) : bool :=
  match v with
  | VArr items => forallb printable items
  | VObj fields => negb (has_own (js "toString") fields)
  | _ => true
  end.

(** The text of a field of an entry: the field itself when it is a text,
    the empty text when it is absent (or another value that counts as
    false), and the text of the value otherwise. *)
Definition field_text (v : value) : jsstring :=
  match v with
  | VStr s => s
  | _ => if truthy v
         then match to_string v with Ok s => s | Throw _ => [] end
         else []
  end.

(** The grading part of the entries the failure extractor is made for:
    objects whose component results, when present, are an array of
    objects, and whose reasons are texts. *)
Definition well_formed_grading (r : value) : bool :=
  is_object r
  && match flag (flag r "gradingResult") "componentResults" with
     | VArr items =>
         forallb (fun c => is_object c && textual (flag c "reason")) items
     | v => negb (truthy v)
     end
  && textual (top_reason r).

(** The entries the failure extractor is made for: the grading part is
    well formed, and the input and the output have a text. *)
Definition well_formed_entry (r : value) : bool :=
  well_formed_grading r
  && printable (entry_input r) && printable (entry_output r).

(** The state of the loop after the entries below [i] have been folded. *)
Definition folded (R : list value) (T : list Test) (i : nat) (st : store) : Prop :=
  results st = R /\ tests st = T
  /\ (forall k g, bySpec st !! k = Some g ->
        (pass g + fail g)%nat = length (cases g))
  /\ total (bySpec st) = i
  /\ (forall j r, (j < i)%nat -> R !! j = Some r ->
        exists g v, verdict_value r = Ok v
          /\ bySpec st !! specKey_of T j = Some g
          /\ {| case_index := j + 1; case_success := v;
                case_requirement := requirement_of T j |} ∈ cases g).

(** The document has a tests: section for patchYaml: a newline, [tests:]
    and a newline. *)
Definition has_tests_section (yaml : jsstring) : bool :=
  includes ([nl] ++ js "tests:" ++ [nl]) yaml.

(** The document has a line that consists of [tests:] and is preceded by a
    newline; the line ends at a newline or at the end of the document. *)
Fixpoint has_tests_line (yaml : jsstring) : bool :=
  match yaml with
  | [] => false
  | c :: rest =>
      ((c =? nl)
       && match strip_prefix (js "tests:") rest with
          | Some [] => true
          | Some (c' :: _) => c' =? nl
          | None => false
          end)
      || has_tests_line rest
  end.

End Notions.
Import Notions.

(** ** Further notions, for the properties beyond the pipeline *)

Module Shapes.

(** A text in which every white-space character is a single space between
    two other characters; [after_ws] tells that a white-space character
    comes just before the text. *)
Fixpoint collapsed (after_ws : bool) (s : jsstring) : bool :=
  match s with
  | [] => true
  | c :: r =>
      if is_space c then negb after_ws && (c =? 32) && collapsed true r
      else collapsed false r
  end.

(** Whether a text ends in white space, [b] for the empty text. *)
Fixpoint ends_in_space (b : bool) (s : jsstring) : bool :=
  match s with
  | [] => b
  | c :: r => ends_in_space (is_space c) r
  end.

Definition no_line_terminator (s : jsstring) : bool :=
  forallb (fun c => negb (is_line_terminator c)) s.

End Shapes.
Import Shapes.

(** ** The report lines and the expected content of the groups *)

Module Expected.

(** [s.cases.filter(c => !c.success)] and [failed.map(c => c.index)] of
    the report of main (generate-summary.js). *)
Definition failed_cases (g : Group) : list Case :=
  List.filter (fun c => negb (truthy (case_success c))) (cases g).

Definition failed_indices (g : Group) : list nat :=
  map case_index (failed_cases g).

(** The value of the verdict expression, [undefined] when it throws. *)
Definition verdict_of (r : value) : value :=
  match verdict_value r with
  | Ok v => v
  | Throw _ => VUndefined
  end.

(** The case of the entry [r] at index [i]. *)
Definition case_at (T : list Test) (i : nat) (r : value) : Case :=
  {| case_index := i + 1; case_success := verdict_of r;
     case_requirement := requirement_of T i |}.

(** The cases of the entries [rs], which start at index [i], whose group
    key is [k], in the order of the entries. *)
Fixpoint cases_for (T : list Test) (k : jsstring) (i : nat) (rs : list value)
  : list Case :=
  match rs with
  | [] => []
  | r :: rest =>
      (if bool_decide (specKey_of T i = k) then [case_at T i r] else [])
      ++ cases_for T k (S i) rest
  end.

(** The group that holds the cases [cs]; no group for no case. *)
Definition group_of (cs : list Case) : option Group :=
  match cs with
  | [] => None
  | _ :: _ =>
      Some {| pass := length (List.filter (fun c => truthy (case_success c)) cs);
              fail := length (List.filter
                                (fun c => negb (truthy (case_success c))) cs);
              cases := cs |}
  end.

(** The ordinals of the failing entries among [rs], which start at index
    [i], in the order of the entries. *)
Fixpoint failing_from (i : nat) (rs : list value) : list nat :=
  match rs with
  | [] => []
  | r :: rest => (if passes r then [] else [(i + 1)%nat]) ++ failing_from (S i) rest
  end.

(** Strictly increasing numbers above [lo]. *)
Fixpoint increasing_from (lo : nat) (l : list nat) : bool :=
  match l with
  | [] => true
  | n :: rest => (lo <? n)%nat && increasing_from n rest
  end.

End Expected.
Import Expected.

(** ** The entry points: result shapes, output path; the HTML escaping *)

Module Entry.

Definition is_array (v : value) : bool :=
  match v with VArr _ => true | _ => false end.

(** main of generate-summary.js:
    [const rawResults = data.results;
     const results = Array.isArray(rawResults) ? rawResults
       : (rawResults && (rawResults.outputs || rawResults.results)) || [];]
    ([results] and [outputs] are not defined on the prototypes either). *)
Definition results_of_summary (data : value) : res value :=
  let! rawResults := get data "results" in
  if is_array rawResults then Ok rawResults
  else
    let! nested :=
      (if truthy rawResults then
         let! o := get rawResults "outputs" in
         if truthy o then Ok o else get rawResults "results"
       else Ok rawResults) in
    Ok (or_else nested (VArr [])).

(** main of extract-failures.js and of generate-analysis-html.js:
    [const raw = data.results;
     const resultsArray =
       raw && (Array.isArray(raw) ? raw : raw.results || raw.outputs) || [];] *)
Definition results_of_extract (data : value) : res value :=
  let! raw := get data "results" in
  let! nested :=
    (if truthy raw then
       if is_array raw then Ok raw
       else
         let! r := get raw "results" in
         if truthy r then Ok r else get raw "outputs"
     else Ok raw) in
  Ok (or_else nested (VArr [])).

(** [s] without the suffix [suf], when it ends with it. *)
Definition strip_suffix (suf s : jsstring) : option jsstring :=
  match strip_prefix (rev suf) (rev s) with
  | Some r => Some (rev r)
  | None => None
  end.

(** main of refine-assertions.js:
    [yamlPath.replace(/\.yaml$/, '_refined.yaml')] *)
Definition refined_path (yamlPath : jsstring) : jsstring :=
  match strip_suffix (js ".yaml") yamlPath with
  | Some stem => stem ++ js "_refined.yaml"
  | None => yamlPath
  end.

(** [const outputPath = args[2] || yamlPath.replace(...)]: the third
    argument when it is given and not empty. *)
Definition outputPath_of (arg2 : option jsstring) (yamlPath : jsstring)
  : jsstring :=
  match arg2 with
  | Some (c :: p) => c :: p
  | _ => refined_path yamlPath
  end.

(** [s.replace(/c/g, by)] for a single character [c]. *)
Definition replace_char (c : N) (by_text : jsstring) (s : jsstring) : jsstring :=
  flat_map (fun x => if x =? c then by_text else [x]) s.

(** escapeHtml of generate-analysis-html.js: [if (s == null) return ''],
    then on [String(s)] four replacements of all occurrences, in this order:
    [&] by [&amp;], [<] by [&lt;], [>] by [&gt;] and the double quote
    (character 34) by [&quot;]. *)
Definition escapeHtml (s : value) : res jsstring :=
  match s with
  | VUndefined | VNull => Ok []
  | _ =>
      let! text := to_string s in
      Ok (replace_char 34 (js "&quot;")
            (replace_char 62 (js "&gt;")
               (replace_char 60 (js "&lt;")
                  (replace_char 38 (js "&amp;") text))))
  end.

End Entry.
Import Entry.

(** ** Record Extractor: the rest of loadYAML (generate-summary.js) *)

Module Records.

(** [s.match(re)] for a pattern without flags that can only match where
    [at_start] says so: the first position of [s], from the left, at which
    it matches. *)
Fixpoint search {A : Type} (at_start : jsstring -> option A) (s : jsstring)
  : option A :=
  match at_start s with
  | Some x => Some x
  | None =>
      match s with
      | [] => None
      | _ :: r => search at_start r
      end
  end.

(** The group of the pattern of specMatch, tried at the start of [s].  The
    pattern is: [spec_requirements:], white space that holds a newline, a
    dash, one or more white-space characters, and a group of one or more
    characters other than the newline.  The white space before the dash is
    the whole run (a dash is not white space).  After the dash the
    white-space run is taken whole when something follows it, and the group
    is what follows up to the next newline; when nothing follows, the
    pattern gives back white space until the group can take one character
    that is not a newline, at least one white-space character being left
    before it. *)
Definition spec_at (s : jsstring) : option jsstring :=
  match strip_prefix (js "spec_requirements:") s with
  | None => None
  | Some r =>
      let '(w, r1) := span is_space r in
      if existsb (fun c => c =? nl) w then
        match r1 with
        | c :: r2 =>
            if c =? 45 then
              let '(w2, rest) := span is_space r2 in
              match rest with
              | _ :: _ =>
                  match w2 with
                  | [] => None
                  | _ :: _ => Some (fst (span (fun c => negb (c =? nl)) rest))
                  end
              | [] =>
                  match snd (span (fun c => c =? nl) (rev w2)) with
                  | c' :: _ :: _ => Some [c']
                  | _ => None
                  end
              end
            else None
        | [] => None
        end
      else None
  end.

(** The group of the pattern of requirementMatch (flag m), tried at the
    start of [s].  The pattern is: [requirement:], white space, a lazy group
    of one or more characters other than line terminators, up to a newline
    or the end of a line.  The group is what follows the white-space run up
    to the next line terminator; when nothing follows the run, the pattern
    gives back white space until the group can take one character that is
    not a line terminator. *)
Definition requirement_at (s : jsstring) : option jsstring :=
  match strip_prefix (js "requirement:") s with
  | None => None
  | Some r =>
      let '(w, rest) := span is_space r in
      match rest with
      | _ :: _ => Some (fst (span (fun c => negb (is_line_terminator c)) rest))
      | [] =>
          match snd (span is_line_terminator (rev w)) with
          | c :: _ => Some [c]
          | [] => None
          end
      end
  end.

(** The callback of [testBlocks.map((block) => {...})]. *)
Definition test_of_block (block : jsstring) : Test :=
  {| metadata :=
       {| spec_requirements :=
            match search spec_at block with
            | Some m => [trim m]
            | None => [js "unknown"]
            end;
          requirement :=
            match search requirement_at block with
            | Some m => trim m
            | None => []
            end |} |}.

(** loadYAML on the text of the file: the [tests] of its result. *)
Definition loadYAML (raw : jsstring) : list Test :=
  map test_of_block (testBlocks raw).

End Records.
Import Records.

(** ** The recommendations of main, and the hints of the HTML report *)

Module Advice.

(** main of generate-summary.js:
    [const total = totalPass + totalFail;
     const recommendations =
       getRecommendations(bySpec, totalPass, totalFail, total);] *)
Definition main_recommendations (b : gmap jsstring Group) : list recommendation :=
  getRecommendations b (totalPass b) (totalFail b) (total b).

(** The pairs [{ cause, fix }] of getFailureHint, by their cause. *)
Inductive hint : Type :=
| HintAssertionFailed   (* 'Assertion failed' *)
| HintAllWords          (* 'Output did not contain all required words or phrases.' *)
| HintRequiredText      (* 'Output did not contain the required text.' *)
| HintForbiddenText     (* 'Output contained forbidden text.' *)
| HintStructure         (* 'Output did not match the required structure (e.g. HTML).' *)
| HintNotMet.           (* 'Assertion condition was not met.' *)

Section Hint.

(** [String.prototype.toLowerCase], whose case table is not part of the
    source. *)
Variable toLowerCase : jsstring -> jsstring.

(** getFailureHint of generate-analysis-html.js. *)
Definition getFailureHint (assertionValue : value) : hint :=
  match assertionValue with
  | VStr (c :: s) =>
      let v := toLowerCase (c :: s) in
      if includes (js "includes(") v && includes (js "&&") v then HintAllWords
      else if includes (js "includes(") v then HintRequiredText
      else if includes (js "!output.includes") v then HintForbiddenText
      else if includes (js ".test(output)") v then HintStructure
      else HintNotMet
  | _ => HintAssertionFailed
  end.

End Hint.

End Advice.
Import Advice.

(** * Properties *)

(** ** Strings: prefixes, search, split and join *)

Section StringFacts.

Lemma strip_prefix_app (p r : jsstring) : strip_prefix p (p ++ r) = Some r.
Proof.
  induction p as [|a p IH]; simpl; [reflexivity|].
  rewrite N.eqb_refl. exact IH.
Qed.

Lemma strip_prefix_Some (p s r : jsstring) :
  strip_prefix p s = Some r -> s = p ++ r.
Proof.
  revert s. induction p as [|a p IH]; intros s H; simpl in *.
  - congruence.
  - destruct s as [|b s]; [discriminate|].
    destruct (N.eqb_spec a b) as [->|]; [|discriminate].
    f_equal. apply IH, H.
Qed.

Lemma starts_with_app (p r : jsstring) : starts_with p (p ++ r) = true.
Proof. unfold starts_with. rewrite strip_prefix_app. reflexivity. Qed.

Lemma starts_with_true (p s : jsstring) :
  starts_with p s = true -> exists r, s = p ++ r.
Proof.
  unfold starts_with. destruct (strip_prefix p s) as [r|] eqn:E; [|discriminate].
  intros _. exists r. apply strip_prefix_Some, E.
Qed.

Lemma includes_here (needle s : jsstring) :
  starts_with needle s = true -> includes needle s = true.
Proof. intros H. destruct s; simpl; rewrite H; reflexivity. Qed.

Lemma includes_app (needle pre post : jsstring) :
  includes needle (pre ++ needle ++ post) = true.
Proof.
  induction pre as [|c pre IH].
  - rewrite app_nil_l. apply includes_here, starts_with_app.
  - simpl. rewrite IH. apply orb_true_r.
Qed.

Lemma includes_true (needle s : jsstring) :
  includes needle s = true -> exists pre post, s = pre ++ needle ++ post.
Proof.
  induction s as [|c s IH]; simpl; intros H.
  - rewrite orb_false_r in H. apply starts_with_true in H as [r ->].
    exists [], r. reflexivity.
  - apply orb_true_iff in H as [H|H].
    + apply starts_with_true in H as [r ->]. exists [], r. reflexivity.
    + destruct (IH H) as (pre & post & ->). exists (c :: pre), post. reflexivity.
Qed.

Lemma span_app (p : N -> bool) (a b : jsstring) :
  Forall (fun c => p c = true) a ->
  match b with [] => True | c :: _ => p c = false end ->
  span p (a ++ b) = (a, b).
Proof.
  intros Ha Hb. induction Ha as [|c a Hc _ IH]; simpl.
  - destruct b as [|c b]; [reflexivity|]. simpl. rewrite Hb. reflexivity.
  - rewrite Hc, IH. reflexivity.
Qed.

Lemma span_spec (p : N -> bool) (s a b : jsstring) :
  span p s = (a, b) ->
  s = a ++ b /\ Forall (fun c => p c = true) a
  /\ match b with [] => True | c :: _ => p c = false end.
Proof.
  revert a b. induction s as [|c s IH]; simpl; intros a b H.
  - inversion H. auto.
  - destruct (p c) eqn:Hc.
    + destruct (span p s) as [a' b'] eqn:E. inversion H; subst.
      destruct (IH _ _ eq_refl) as (-> & Ha & Hb). auto.
    + inversion H; subst. simpl. auto.
Qed.

Variable at_sep : N -> jsstring -> bool.

Lemma split_at_cons (s : jsstring) :
  exists piece pieces, split_at at_sep s = piece :: pieces.
Proof.
  destruct s as [|c s]; simpl; [eauto|].
  destruct (at_sep c s); [eauto|].
  destruct (split_at at_sep s); eauto.
Qed.

Lemma length_split_at (s : jsstring) :
  length (split_at at_sep s) = S (count_sep at_sep s).
Proof.
  induction s as [|c s IH]; simpl; [reflexivity|].
  destruct (at_sep c s); simpl; [by rewrite IH|].
  destruct (split_at at_sep s); simpl in *; congruence.
Qed.

Lemma split_at_no_sep (s : jsstring) :
  count_sep at_sep s = O -> split_at at_sep s = [s].
Proof.
  induction s as [|c s IH]; simpl; [reflexivity|].
  destruct (at_sep c s); [discriminate|]. simpl. intros H.
  rewrite (IH H). reflexivity.
Qed.

Hypothesis sep_is_nl : forall c rest, at_sep c rest = true -> c = nl.

Lemma join_split_at (s : jsstring) : join [nl] (split_at at_sep s) = s.
Proof.
  induction s as [|c s IH]; simpl; [reflexivity|].
  destruct (at_sep c s) eqn:E.
  - apply sep_is_nl in E as ->.
    destruct (split_at_cons s) as (p & ps & Hs). rewrite Hs in *.
    simpl. simpl in IH. rewrite IH. reflexivity.
  - destruct (split_at_cons s) as (p & ps & Hs). rewrite Hs in *.
    simpl in *. destruct ps; simpl in *; congruence.
Qed.

End StringFacts.

(** ** Document Segmenter *)

Section SegmenterFacts.

Lemma at_block_sep_nl (c : N) (rest : jsstring) :
  at_block_sep c rest = true -> c = nl.
Proof.
  unfold at_block_sep. intros H. apply andb_true_iff in H as [H _].
  apply N.eqb_eq, H.
Qed.

Lemma space_not_dash (c : N) : is_space c = true -> (c =? 45) = false.
Proof.
  intros H. destruct (N.eqb_spec c 45) as [->|]; [|reflexivity].
  vm_compute in H. discriminate.
Qed.

Lemma marker_at_intro (ws t : jsstring) :
  ws <> [] -> Forall (fun c => is_space c = true) ws ->
  marker_at (45 :: ws ++ js "vars:" ++ t) = true.
Proof.
  intros Hne Hws. unfold marker_at. rewrite N.eqb_refl, andb_true_l.
  rewrite (span_app is_space ws (js "vars:" ++ t) Hws); [|reflexivity].
  destruct ws; [congruence|]. apply starts_with_app.
Qed.

Lemma marker_at_elim (s : jsstring) :
  marker_at s = true ->
  exists ws t, s = 45 :: ws ++ js "vars:" ++ t /\ ws <> []
               /\ Forall (fun c => is_space c = true) ws.
Proof.
  destruct s as [|c r]; [discriminate|]. unfold marker_at.
  intros H. apply andb_true_iff in H as [Hc H].
  apply N.eqb_eq in Hc as ->.
  destruct (span is_space r) as [ws r'] eqn:E.
  apply span_spec in E as (-> & Hws & _).
  destruct ws as [|w ws]; [discriminate|].
  apply starts_with_true in H as [t ->].
  exists (w :: ws), t. split; [reflexivity|]. split; [discriminate|assumption].
Qed.

Lemma marker_includes_vars (b : jsstring) :
  marker_at b = true -> includes (js "vars:") b = true.
Proof.
  intros H. apply marker_at_elim in H as (ws & t & -> & _ & _).
  apply (includes_app (js "vars:") (45 :: ws) t).
Qed.

Lemma hd_split_cons (P : N -> jsstring -> bool) (c : N) (rest : jsstring) :
  P c rest = false ->
  hd [] (split_at P (c :: rest)) = c :: hd [] (split_at P rest).
Proof.
  intros H. simpl. rewrite H.
  destruct (split_at_cons P rest) as (p & ps & ->). reflexivity.
Qed.

Lemma hd_split_spaces (ws t : jsstring) :
  Forall (fun c => is_space c = true) ws ->
  hd [] (split_blocks (ws ++ js "vars:" ++ t))
  = ws ++ hd [] (split_blocks (js "vars:" ++ t)).
Proof.
  induction 1 as [|w ws Hw Hws IH]; [reflexivity|].
  unfold split_blocks in *. rewrite <- !app_comm_cons.
  rewrite hd_split_cons; [rewrite IH; reflexivity|].
  unfold at_block_sep.
  destruct Hws as [|w' ws' Hw' _].
  - rewrite app_nil_l. apply andb_false_r.
  - rewrite <- app_comm_cons. unfold marker_at.
    rewrite (space_not_dash _ Hw'). apply andb_false_r.
Qed.

Lemma first_block_marker (s : jsstring) :
  marker_at s = true -> marker_at (hd [] (split_blocks s)) = true.
Proof.
  intros H. apply marker_at_elim in H as (ws & t & -> & Hne & Hws).
  unfold split_blocks. rewrite hd_split_cons by reflexivity.
  fold (split_blocks (ws ++ js "vars:" ++ t)).
  rewrite (hd_split_spaces ws t Hws). unfold split_blocks.
  change (js "vars:" ++ t) with (118 :: 97 :: 114 :: 115 :: 58 :: t).
  rewrite !hd_split_cons by reflexivity.
  apply (marker_at_intro ws (hd [] (split_at at_block_sep t)) Hne Hws).
Qed.

Lemma later_blocks_marker (s : jsstring) :
  Forall (fun b => marker_at b = true) (tl (split_blocks s)).
Proof.
  unfold split_blocks. induction s as [|c s IH]; simpl; [constructor|].
  destruct (at_block_sep c s) eqn:E.
  - simpl. destruct (split_at_cons at_block_sep s) as (p & ps & Hs).
    rewrite Hs in *. constructor; [|exact IH].
    apply andb_true_iff in E as [_ E].
    apply first_block_marker in E. unfold split_blocks in E.
    rewrite Hs in E. exact E.
  - destruct (split_at_cons at_block_sep s) as (p & ps & Hs).
    rewrite Hs in *. exact IH.
Qed.

Lemma filter_all (f : jsstring -> bool) (l : list jsstring) :
  Forall (fun b => f b = true) l -> List.filter f l = l.
Proof.
  induction 1 as [|b l Hb _ IH]; simpl; [reflexivity|].
  rewrite Hb, IH. reflexivity.
Qed.

Lemma no_vars_no_marker (s : jsstring) :
  includes (js "vars:") s = false -> count_nl_markers s = O.
Proof.
  unfold count_nl_markers. induction s as [|c s IH]; [reflexivity|].
  intros H. simpl in H. apply orb_false_iff in H as [_ H].
  simpl. rewrite (IH H). unfold at_block_sep.
  destruct (marker_at s) eqn:E; [|rewrite andb_false_r; reflexivity].
  apply marker_includes_vars in E. congruence.
Qed.

End SegmenterFacts.

(** C4 (as amended): splitting a document at every newline that a record
    marker follows gives pieces that, joined by newlines, are the document
    again; there is one piece more than such newlines, and every piece after
    the first starts with a record marker.  The Segmenter of loadYAML yields
    the pieces that contain "vars:", that is all the pieces after the first,
    and the first one only when it contains "vars:".  So it yields exactly
    as many blocks as the document has markers at line starts when the
    document starts with a marker (the blocks joined by newlines are then
    the document) and when the text before the first marker has no "vars:"
    (that text followed by the blocks, joined by newlines, is then the
    document); a document without any "vars:" yields the empty sequence. *)
Theorem segmenter_blocks (D : jsstring) :
  exists first rest,
    split_blocks D = first :: rest
    /\ join [nl] (first :: rest) = D
    /\ length rest = count_nl_markers D
    /\ Forall (fun b => marker_at b = true) rest
    /\ testBlocks D
       = (if includes (js "vars:") first then first :: rest else rest)
    /\ (marker_at D = true ->
        length (testBlocks D) = count_markers D
        /\ join [nl] (testBlocks D) = D)
    /\ (includes (js "vars:") first = false ->
        length (testBlocks D) = count_markers D
        /\ join [nl] (first :: testBlocks D) = D)
    /\ (includes (js "vars:") D = false -> testBlocks D = []).
Proof.
  destruct (split_at_cons at_block_sep D) as (first & rest & Hs).
  fold (split_blocks D) in Hs.
  pose proof (join_split_at at_block_sep at_block_sep_nl D) as Hj.
  pose proof (length_split_at at_block_sep D) as Hl.
  pose proof (later_blocks_marker D) as Hm.
  fold (split_blocks D) in Hj, Hl. fold (count_nl_markers D) in Hl.
  rewrite Hs in Hj, Hl, Hm. simpl in Hl, Hm.
  assert (Hrest : List.filter (includes (js "vars:")) rest = rest).
  { apply filter_all. eapply Forall_impl; [exact Hm|].
    intros b. apply marker_includes_vars. }
  assert (Htb : testBlocks D
                = if includes (js "vars:") first then first :: rest else rest).
  { unfold testBlocks. rewrite Hs. simpl. rewrite Hrest. reflexivity. }
  assert (Hfirst : marker_at D = true -> includes (js "vars:") first = true).
  { intros H. apply first_block_marker in H. rewrite Hs in H.
    apply marker_includes_vars, H. }
  exists first, rest. repeat split; try assumption; try lia.
  - rewrite Htb, (Hfirst H). unfold count_markers. rewrite H. simpl. lia.
  - rewrite Htb, (Hfirst H). exact Hj.
  - rewrite Htb, H. unfold count_markers.
    destruct (marker_at D) eqn:E; [|simpl; lia].
    rewrite (Hfirst eq_refl) in H. discriminate.
  - rewrite Htb, H. exact Hj.
  - intros H. unfold testBlocks, split_blocks.
    rewrite (split_at_no_sep at_block_sep D (no_vars_no_marker D H)).
    simpl. rewrite H. reflexivity.
Qed.

(** C4, counterexample: the document "tests:" / "- vars: 1" has one record
    marker and the Segmenter yields one block, but the block is not the
    document: the header line is dropped. *)
Lemma segmenter_roundtrip_counterexample :
  let D := js "tests:" ++ [nl] ++ js "- vars: 1" in
  count_markers D = 1%nat
  /\ testBlocks D = [js "- vars: 1"]
  /\ join [nl] (testBlocks D) <> D.
Proof. vm_compute. repeat split. discriminate. Qed.

(** ** Verdict *)

Section VerdictFacts.

Lemma strict_true_eq (v : value) : strict_true v = true <-> v = VBool true.
Proof.
  split; [|intros ->; reflexivity].
  destruct v as [| |[|]| | | |]; simpl; congruence.
Qed.

Lemma strict_true_truthy (v : value) : strict_true v = true -> truthy v = true.
Proof. intros H. apply strict_true_eq in H as ->. reflexivity. Qed.

(** On an object the verdict expression never throws, and its truth value
    is the disjunction of the three strict tests. *)
Lemma verdict_value_obj (fields : list (jsstring * value)) :
  let r := VObj fields in
  exists v, verdict_value r = Ok v
    /\ truthy v = strict_true (success_flag r) || strict_true (pass_flag r)
                  || strict_true (nested_pass_flag r).
Proof.
  intros r. unfold verdict_value, success_flag, pass_flag, nested_pass_flag, flag.
  subst r. cbn [get bind].
  destruct (strict_true (assoc (js "success") fields)); [eauto|].
  destruct (strict_true (assoc (js "pass") fields)); [eauto|].
  cbn [orb].
  destruct (assoc (js "gradingResult") fields) as [| |[|]|n|s|l|l] eqn:E;
    cbn [truthy get bind strict_true];
    try (eexists; split; reflexivity).
  - destruct (n =? 0)%Z eqn:En; cbn [negb bind get]; eexists;
      (split; [reflexivity|]); cbn [truthy]; rewrite ?En; reflexivity.
  - destruct s; eexists; split; reflexivity.
Qed.

End VerdictFacts.

(** C3, counterexample: the entry [{ success: false, pass: true }] has its
    first present boolean false, so the precedence rule of the claim makes
    it a fail, while the verdict expression of the scripts makes it a
    pass. *)
Lemma verdict_precedence_counterexample :
  let r := VObj [(js "success", VBool false); (js "pass", VBool true)] in
  verdict_by_precedence r = false /\ verdict_value r = Ok (VBool true).
Proof. vm_compute. split; reflexivity. Qed.

(** C3 (as amended): the verdict of a result entry is pass exactly when the
    explicit success flag, or the explicit pass flag, or the nested
    grading-result pass flag is the boolean true; the flags are tested in
    that order and the first that is true decides, a flag that is present
    and false does not end the test.  If none of the three is present the
    verdict is fail, an entry with only the nested flag true is a pass, and
    every entry that passes under the first-present-boolean rule passes. *)
Theorem verdict_first_true (fields : list (jsstring * value)) :
  let r := VObj fields in
  exists v, verdict_value r = Ok v
    /\ truthy v
       = (if strict_true (success_flag r) then true
          else if strict_true (pass_flag r) then true
          else strict_true (nested_pass_flag r))
    /\ (success_flag r = VUndefined -> pass_flag r = VUndefined ->
        nested_pass_flag r = VUndefined -> truthy v = false)
    /\ (success_flag r = VUndefined -> pass_flag r = VUndefined ->
        nested_pass_flag r = VBool true -> truthy v = true)
    /\ (verdict_by_precedence r = true -> truthy v = true).
Proof.
  intros r. destruct (verdict_value_obj fields) as (v & Hv & Ht).
  fold r in Hv, Ht. exists v. split; [exact Hv|]. rewrite Ht.
  split; [|split; [|split]].
  - destruct (strict_true (success_flag r)), (strict_true (pass_flag r));
      reflexivity.
  - intros -> -> ->. reflexivity.
  - intros -> -> ->. reflexivity.
  - unfold verdict_by_precedence. cbn [first_present_boolean].
    destruct (success_flag r) as [| |[|]| | | |]; try (intros; reflexivity || discriminate);
    destruct (pass_flag r) as [| |[|]| | | |]; try (intros; reflexivity || discriminate);
    destruct (nested_pass_flag r) as [| |[|]| | | |]; intros; reflexivity || discriminate.
Qed.

(** C9: the verdict of a result entry is pass only when its success flag,
    its pass flag or its nested grading-result pass flag is exactly the
    boolean true; an entry whose flags hold other truthy values, such as
    the number 1 or the string "true", is a fail. *)
Theorem verdict_strict_boolean :
  (forall fields : list (jsstring * value),
     let r := VObj fields in
     exists v, verdict_value r = Ok v
       /\ (truthy v = true <->
           success_flag r = VBool true \/ pass_flag r = VBool true
           \/ nested_pass_flag r = VBool true))
  /\ passes (VObj [(js "success", VNum 1); (js "pass", VStr (js "true"));
                   (js "gradingResult", VObj [(js "pass", VNum 1)])]) = false
  /\ passes (VObj [(js "success", VStr (js "true"))]) = false
  /\ passes (VObj [(js "gradingResult", VObj [(js "pass", VStr (js "true"))])])
     = false.
Proof.
  split; [|vm_compute; repeat split].
  intros fields r. destruct (verdict_value_obj fields) as (v & Hv & Ht).
  fold r in Hv, Ht. exists v. split; [exact Hv|]. rewrite Ht.
  rewrite !orb_true_iff, !strict_true_eq. tauto.
Qed.

(** ** Correlation and aggregation *)

Section AggregateFacts.

Lemma fold_pass_comm (j1 j2 : jsstring) (z1 z2 : Group) (y : nat) :
  (fun (_ : jsstring) g acc => (acc + pass g)%nat) j1 z1
    ((fun (_ : jsstring) g acc => (acc + pass g)%nat) j2 z2 y)
  = (fun (_ : jsstring) g acc => (acc + pass g)%nat) j2 z2
      ((fun (_ : jsstring) g acc => (acc + pass g)%nat) j1 z1 y).
Proof. simpl. lia. Qed.

Lemma fold_fail_comm (j1 j2 : jsstring) (z1 z2 : Group) (y : nat) :
  (fun (_ : jsstring) g acc => (acc + fail g)%nat) j1 z1
    ((fun (_ : jsstring) g acc => (acc + fail g)%nat) j2 z2 y)
  = (fun (_ : jsstring) g acc => (acc + fail g)%nat) j2 z2
      ((fun (_ : jsstring) g acc => (acc + fail g)%nat) j1 z1 y).
Proof. simpl. lia. Qed.

Lemma total_empty : total ∅ = O.
Proof. unfold total, totalPass, totalFail. rewrite !map_fold_empty. reflexivity. Qed.

Lemma total_insert_fresh (b : gmap jsstring Group) (k : jsstring) (g : Group) :
  b !! k = None -> total (<[k := g]> b) = (total b + (pass g + fail g))%nat.
Proof.
  intros H. unfold total, totalPass, totalFail.
  rewrite !map_fold_insert_L; auto using fold_pass_comm, fold_fail_comm.
  lia.
Qed.

Lemma total_delete (b : gmap jsstring Group) (k : jsstring) (g : Group) :
  b !! k = Some g -> total b = (total (delete k b) + (pass g + fail g))%nat.
Proof.
  intros H. rewrite <- (insert_delete_id b k g H) at 1.
  apply total_insert_fresh, lookup_delete_eq.
Qed.

(** Recording a case adds one to the total of the groups. *)
Lemma total_record (b : gmap jsstring Group) (k : jsstring) (c : Case) :
  total (<[k := record_case (default new_group (b !! k)) c]> b) = S (total b).
Proof.
  assert (Hrec : forall g, (pass (record_case g c) + fail (record_case g c))%nat
                           = S (pass g + fail g)).
  { intros g. unfold record_case. destruct (truthy (case_success c)); simpl; lia. }
  destruct (b !! k) as [g|] eqn:E; simpl.
  - rewrite <- insert_delete_eq, total_insert_fresh by apply lookup_delete_eq.
    rewrite (total_delete b k g E), Hrec. lia.
  - rewrite total_insert_fresh by exact E. rewrite Hrec. simpl. lia.
Qed.

Lemma record_case_counts (g : Group) (c : Case) :
  (pass g + fail g)%nat = length (cases g) ->
  (pass (record_case g c) + fail (record_case g c))%nat
  = length (cases (record_case g c)).
Proof.
  intros H. unfold record_case.
  destruct (truthy (case_success c)); simpl; rewrite length_app; simpl; lia.
Qed.

Lemma record_case_keeps (g : Group) (c c' : Case) :
  c' ∈ cases g -> c' ∈ cases (record_case g c).
Proof.
  intros H. unfold record_case.
  destruct (truthy (case_success c)); simpl; apply elem_of_app; auto.
Qed.

Lemma record_case_has (g : Group) (c : Case) : c ∈ cases (record_case g c).
Proof.
  unfold record_case.
  destruct (truthy (case_success c)); simpl; apply elem_of_app; right;
    apply list_elem_of_singleton; reflexivity.
Qed.

(** What the callback does when the verdict can be computed and the key is
    not an inherited name. *)
Lemma callback_ok (st : store) (i : nat) (r v : value) :
  verdict_value r = Ok v ->
  inherited (specKey_of (tests st) i) = false ->
  callback st i r
  = Ok {| results := results st; tests := tests st;
          bySpec :=
            <[specKey_of (tests st) i :=
                record_case
                  (default new_group (bySpec st !! specKey_of (tests st) i))
                  {| case_index := i + 1; case_success := v;
                     case_requirement := requirement_of (tests st) i |}]>
              (bySpec st) |}.
Proof.
  intros Hv Hk. unfold callback. rewrite Hv, Hk. cbn [bind].
  destruct (bySpec st !! specKey_of (tests st) i) as [g|] eqn:E.
  - rewrite E. reflexivity.
  - rewrite lookup_insert_eq, insert_insert_eq. reflexivity.
Qed.

Lemma folded_step (R : list value) (T : list Test) (i : nat) (st : store)
    (r : value) :
  folded R T i st -> R !! i = Some r -> is_object r = true ->
  inherited (specKey_of T i) = false ->
  exists st', callback st i r = Ok st' /\ folded R T (S i) st'.
Proof.
  intros (HR & HT & Hcnt & Htot & Hcases) Hi Hobj Hk. subst R T.
  destruct r as [| | | | | |fields]; try discriminate.
  destruct (verdict_value_obj fields) as (v & Hv & _).
  eexists. split; [apply (callback_ok st i _ v Hv Hk)|].
  unfold folded. cbn [results tests bySpec].
  split; [reflexivity|]. split; [reflexivity|]. split; [|split].
  - intros k g. rewrite lookup_insert. case_decide as Hkey.
    + intros [= <-]. apply record_case_counts.
      destruct (bySpec st !! specKey_of (tests st) i) as [g0|] eqn:E;
        simpl; eauto.
    + apply Hcnt.
  - rewrite total_record, Htot. reflexivity.
  - intros j r Hj Hr.
    destruct (decide (j = i)) as [->|Hne].
    + rewrite Hi in Hr. injection Hr as <-.
      eexists _, v. split; [exact Hv|]. split; [apply lookup_insert_eq|].
      apply record_case_has.
    + destruct (Hcases j r ltac:(lia) Hr) as (g & w & Hw & Hg & Hin).
      destruct (decide (specKey_of (tests st) i = specKey_of (tests st) j))
        as [Heq|Hkey].
      * eexists _, w. split; [exact Hw|]. rewrite <- Heq.
        split; [apply lookup_insert_eq|].
        apply record_case_keeps. rewrite Heq, Hg. exact Hin.
      * exists g, w. split; [exact Hw|]. split; [|exact Hin].
        rewrite lookup_insert_ne by exact Hkey. exact Hg.
Qed.

Lemma folded_loop (R : list value) (T : list Test) (n i : nat) (st : store) :
  folded R T i st -> (i + n)%nat = length R ->
  Forall (fun r => is_object r = true) R ->
  (forall j, (j < length R)%nat -> inherited (specKey_of T j) = false) ->
  exists st', forEach_results n i st = Ok st' /\ folded R T (length R) st'.
Proof.
  intros Hst Hlen Hobj Hkeys. revert i st Hst Hlen.
  induction n as [|n IH]; intros i st Hst Hlen.
  - exists st. split; [reflexivity|]. replace (length R) with i by lia. exact Hst.
  - cbn [forEach_results].
    destruct (lookup_lt_is_Some_2 R i ltac:(lia)) as [r Hr].
    destruct Hst as (HR & Hrest). rewrite HR, Hr.
    assert (Hst : folded R T i st) by (split; assumption).
    destruct (folded_step R T i st r Hst Hr) as (st' & Hcb & Hst').
    { rewrite Forall_forall in Hobj. apply Hobj.
      eapply list_elem_of_lookup_2. exact Hr. }
    { apply Hkeys. lia. }
    rewrite Hcb. cbn [bind]. apply IH; [exact Hst'|lia].
Qed.

Lemma aggregate_folded (R : list value) (T : list Test) :
  Forall (fun r => is_object r = true) R ->
  (forall j, (j < length R)%nat -> inherited (specKey_of T j) = false) ->
  exists st, aggregate R T = Ok st /\ folded R T (length R) st.
Proof.
  intros Hobj Hkeys. apply folded_loop; auto.
  unfold folded. cbn [results tests bySpec].
  repeat split; auto using total_empty.
  - intros k g. rewrite lookup_empty. discriminate.
  - intros j r Hj. lia.
Qed.

End AggregateFacts.

(** C5: for every result collection R (of objects) and definition sequence
    T (whose keys are not names inherited from Object.prototype, so that the
    loop of main runs to its end), the loop leaves R and T as they were, and
    for every index i of R the case it records for R[i], with ordinal i + 1
    and the verdict of R[i], is filed under the group key of T[i] with the
    requirement text of T[i] when i < |T|, and under "unknown" with the
    empty requirement text otherwise. *)
Theorem correlator_pairing (R : list value) (T : list Test) :
  Forall (fun r => is_object r = true) R ->
  (forall j, (j < length R)%nat -> inherited (specKey_of T j) = false) ->
  exists st,
    aggregate R T = Ok st
    /\ results st = R /\ tests st = T
    /\ forall i r, R !! i = Some r ->
         exists key req g v,
           verdict_value r = Ok v
           /\ bySpec st !! key = Some g
           /\ {| case_index := i + 1; case_success := v;
                 case_requirement := req |} ∈ cases g
           /\ (forall t, T !! i = Some t ->
                 key = groupKey t /\ req = requirement (metadata t))
           /\ ((length T <= i)%nat -> key = js "unknown" /\ req = []).
Proof.
  intros Hobj Hkeys.
  destruct (aggregate_folded R T Hobj Hkeys) as (st & Hagg & HR & HT & _ & _ & Hc).
  exists st. repeat (split; [assumption|]).
  intros i r Hr.
  destruct (Hc i r (lookup_lt_Some _ _ _ Hr) Hr) as (g & v & Hv & Hg & Hin).
  exists (specKey_of T i), (requirement_of T i), g, v.
  repeat (split; [assumption|]).
  unfold specKey_of, requirement_of, groupKey. split.
  - intros t Ht. rewrite Ht. split; reflexivity.
  - intros Hlen. rewrite (lookup_ge_None_2 T i Hlen). split; reflexivity.
Qed.

Lemma correlator_pairing_witness :
  exists st,
    aggregate [VObj [(js "success", VBool true)]; VObj []]
              [ {| metadata := {| spec_requirements := [js "tone"];
                                  requirement := js "be polite" |} |} ]
    = Ok st.
Proof.
  destruct (correlator_pairing
              [VObj [(js "success", VBool true)]; VObj []]
              [ {| metadata := {| spec_requirements := [js "tone"];
                                  requirement := js "be polite" |} |} ])
    as (st & H & _).
  - repeat constructor.
  - intros j Hj. simpl in Hj.
    destruct j as [|[|j]]; [reflexivity|reflexivity|lia].
  - exists st. exact H.
Defined.

(** C8: after the loop of main has folded every result entry (the entries
    are objects and no group key is a name inherited from Object.prototype,
    so that the loop runs to its end), every group has
    pass + fail = number of its cases, and the sum of pass + fail over all
    groups is the number of result entries. *)
Theorem aggregator_counts (R : list value) (T : list Test) :
  Forall (fun r => is_object r = true) R ->
  (forall j, (j < length R)%nat -> inherited (specKey_of T j) = false) ->
  exists st,
    aggregate R T = Ok st
    /\ (forall k g, bySpec st !! k = Some g ->
          (pass g + fail g)%nat = length (cases g))
    /\ (totalPass (bySpec st) + totalFail (bySpec st))%nat = length R.
Proof.
  intros Hobj Hkeys.
  destruct (aggregate_folded R T Hobj Hkeys) as (st & Hagg & _ & _ & Hcnt & Htot & _).
  exists st. split; [exact Hagg|]. split; [exact Hcnt|exact Htot].
Qed.

Lemma aggregator_counts_witness :
  exists st,
    aggregate [VObj [(js "success", VBool true)]; VObj [(js "success", VBool false)]]
              [ {| metadata := {| spec_requirements := [js "tone"];
                                  requirement := [] |} |};
                {| metadata := {| spec_requirements := [js "tone"];
                                  requirement := [] |} |} ]
    = Ok st
    /\ (totalPass (bySpec st) + totalFail (bySpec st))%nat = 2%nat.
Proof.
  destruct (aggregator_counts
              [VObj [(js "success", VBool true)]; VObj [(js "success", VBool false)]]
              [ {| metadata := {| spec_requirements := [js "tone"];
                                  requirement := [] |} |};
                {| metadata := {| spec_requirements := [js "tone"];
                                  requirement := [] |} |} ])
    as (st & H & _ & Ht).
  - repeat constructor.
  - intros j Hj. simpl in Hj.
    destruct j as [|[|j]]; [reflexivity|reflexivity|lia].
  - exists st. split; [exact H|exact Ht].
Defined.

(** ** Recommendations *)

Section RecommendationFacts.

Lemma Qltb_lt (x y : Q) : Qltb x y = true <-> (x < y)%Q.
Proof.
  unfold Qltb. rewrite negb_true_iff. split.
  - intros H. apply Qnot_le_lt. intros Hle.
    apply Qle_bool_iff in Hle. congruence.
  - intros H. destruct (Qle_bool y x) eqn:E; [|reflexivity].
    apply Qle_bool_iff in E. apply Qlt_not_le in H. contradiction.
Qed.

Lemma Qltb_ge (x y : Q) : Qltb x y = false <-> (y <= x)%Q.
Proof.
  unfold Qltb. rewrite negb_false_iff. apply Qle_bool_iff.
Qed.

Lemma overall_guidance_rest (b : gmap jsstring Group) :
  overall_guidance
    ((match weakSpecs b with
      | [] => []
      | w :: ws => [WeakSpecs (w :: ws)]
      end) ++ [DownloadArtifact; ImprovePrompt]) = [].
Proof. destruct (weakSpecs b); reflexivity. Qed.

(** The guidance line of a non-empty run, by the two comparisons of the
    source. *)
Lemma overall_guidance_run (b : gmap jsstring Group) (p f t : nat) :
  (0 < t)%nat ->
  overall_guidance (getRecommendations b p f t)
  = if Qltb (rate p t) 40 then [LowPassRate]
    else if Qltb (rate p t) 70 then [ModeratePassRate]
    else [GoodBaseline].
Proof.
  intros Ht. unfold getRecommendations. destruct t as [|t]; [lia|].
  unfold overall_guidance. rewrite List.filter_app.
  fold (overall_guidance
          ((match weakSpecs b with
            | [] => []
            | w :: ws => [WeakSpecs (w :: ws)]
            end) ++ [DownloadArtifact; ImprovePrompt])).
  rewrite overall_guidance_rest, app_nil_r.
  destruct (Qltb (rate p (S t)) 40) eqn:E40; [reflexivity|].
  destruct (Qltb (rate p (S t)) 70) eqn:E70; [reflexivity|].
  apply Qltb_ge in E70. apply Qle_bool_iff in E70. rewrite E70. reflexivity.
Qed.

(** In double precision the two boundary rates are computed exactly: 2 of
    5 is 40 and 7 of 10 is 70 (and so for every pair of counts in the same
    ratio, whose quotient is the same double). *)
Lemma rate_double_boundaries :
  PrimFloat.eqb (rate_double 2 5) (double_of_nat 40) = true
  /\ PrimFloat.eqb (rate_double 7 10) (double_of_nat 70) = true
  /\ PrimFloat.ltb (rate_double 399 1000) (double_of_nat 40) = true
  /\ PrimFloat.ltb (rate_double 699 1000) (double_of_nat 70) = true.
Proof. vm_compute. repeat split. Qed.

End RecommendationFacts.

(** C6, counterexample: without result entries the overall rate is 0, which
    is below 40, yet getRecommendations returns before the rate is looked
    at: the only line is the one that asks to generate test cases, and no
    low-pass-rate guidance is given. *)
Lemma recommendation_empty_run_counterexample :
  (rate 0 0 < 40)%Q
  /\ getRecommendations ∅ 0 0 0 = [RunGenerate]
  /\ overall_guidance (getRecommendations ∅ 0 0 0) = [].
Proof. repeat split. Qed.

(** C6 (as amended): when there is at least one result entry, exactly one
    of the three lines of overall guidance is given: the low-pass-rate line
    when the overall rate is strictly below 40, the moderate line when it is
    at least 40 and strictly below 70, the good-baseline line when it is at
    least 70; so a rate of exactly 40 gives the moderate line and a rate of
    exactly 70 the good-baseline line. *)
Theorem recommendation_buckets (b : gmap jsstring Group) (p f t : nat) :
  (0 < t)%nat ->
  let guidance := overall_guidance (getRecommendations b p f t) in
  ((rate p t < 40)%Q -> guidance = [LowPassRate])
  /\ ((40 <= rate p t)%Q -> (rate p t < 70)%Q -> guidance = [ModeratePassRate])
  /\ ((70 <= rate p t)%Q -> guidance = [GoodBaseline])
  /\ ((rate p t == 40)%Q -> guidance = [ModeratePassRate])
  /\ ((rate p t == 70)%Q -> guidance = [GoodBaseline]).
Proof.
  intros Ht guidance. subst guidance. rewrite (overall_guidance_run b p f t Ht).
  assert (Hlow : (rate p t < 40)%Q ->
                 (if Qltb (rate p t) 40 then [LowPassRate]
                  else if Qltb (rate p t) 70 then [ModeratePassRate]
                  else [GoodBaseline]) = [LowPassRate]).
  { intros H. apply Qltb_lt in H. rewrite H. reflexivity. }
  assert (Hmid : (40 <= rate p t)%Q -> (rate p t < 70)%Q ->
                 (if Qltb (rate p t) 40 then [LowPassRate]
                  else if Qltb (rate p t) 70 then [ModeratePassRate]
                  else [GoodBaseline]) = [ModeratePassRate]).
  { intros H1 H2. apply Qltb_ge in H1. apply Qltb_lt in H2.
    rewrite H1, H2. reflexivity. }
  assert (Hgood : (70 <= rate p t)%Q ->
                  (if Qltb (rate p t) 40 then [LowPassRate]
                   else if Qltb (rate p t) 70 then [ModeratePassRate]
                   else [GoodBaseline]) = [GoodBaseline]).
  { intros H. assert (H40 : (40 <= rate p t)%Q).
    { eapply Qle_trans; [|exact H]. discriminate. }
    apply Qltb_ge in H, H40. rewrite H, H40. reflexivity. }
  repeat split; try assumption.
  - intros H. apply Hmid; rewrite H; [apply Qle_refl|reflexivity].
  - intros H. apply Hgood. rewrite H. apply Qle_refl.
Qed.

Lemma recommendation_buckets_witness :
  overall_guidance (getRecommendations ∅ 2 3 5) = [ModeratePassRate]
  /\ overall_guidance (getRecommendations ∅ 7 3 10) = [GoodBaseline].
Proof.
  split.
  - apply (recommendation_buckets ∅ 2 3 5); [lia|reflexivity].
  - apply (recommendation_buckets ∅ 7 3 10); [lia|reflexivity].
Defined.

(** ** Failure extraction *)

Section ExtractFacts.

Lemma get_truthy (a : value) (k : string) :
  truthy a = true -> get a k = Ok (flag a k).
Proof. destruct a; simpl; try discriminate; reflexivity. Qed.

Lemma flag_falsy (a : value) (k : string) :
  truthy a = false -> flag a k = VUndefined.
Proof. destruct a; simpl; try discriminate; reflexivity. Qed.

Lemma and_get_spec (a : value) (k : string) :
  and_get a k = Ok (if truthy a then flag a k else a).
Proof.
  unfold and_get. destruct (truthy a) eqn:E; [|reflexivity].
  apply get_truthy, E.
Qed.

Lemma object_truthy (c : value) : is_object c = true -> truthy c = true.
Proof. destruct c; simpl; congruence. Qed.

Lemma or_else_truthy (a b : value) : truthy a = true -> or_else a b = a.
Proof. unfold or_else. intros ->. reflexivity. Qed.

Lemma or_else_falsy (a b : value) : truthy a = false -> or_else a b = b.
Proof. unfold or_else. intros ->. reflexivity. Qed.

Lemma textual_or_else (x : value) :
  textual x = true -> or_else x (VStr []) = VStr (text_of x).
Proof.
  destruct x as [| | | |s| |]; try discriminate; try reflexivity.
  destruct s; reflexivity.
Qed.


(** [find] on an array of objects is the search of the list. *)
Lemma find_failed_objects (items : list value) :
  forallb (fun c => is_object c && textual (flag c "reason")) items = true ->
  find_failed items
  = Ok (default VUndefined
          (List.find (fun c => strict_false (flag c "pass")) items)).
Proof.
  induction items as [|c items IH]; [reflexivity|].
  cbn [forallb find_failed List.find]. intros H.
  apply andb_true_iff in H as [Hc H]. apply andb_true_iff in Hc as [Hc _].
  rewrite (get_truthy c "pass" (object_truthy c Hc)). cbn [bind].
  destruct (strict_false (flag c "pass")); [reflexivity|]. apply IH, H.
Qed.

Lemma find_object (items : list value) (c : value) :
  forallb (fun c => is_object c && textual (flag c "reason")) items = true ->
  List.find (fun c => strict_false (flag c "pass")) items = Some c ->
  is_object c = true /\ textual (flag c "reason") = true.
Proof.
  intros Hall Hfind. apply find_some in Hfind as [Hin _].
  rewrite forallb_forall in Hall. apply Hall in Hin.
  apply andb_true_iff in Hin. exact Hin.
Qed.

(** The pair (failingAssertion, reason) after the search of the component
    results, for a well-formed entry [r] with grading result [g]. *)
Lemma from_components_spec (r : value) :
  well_formed_grading r = true ->
  exists fa r1,
    from_components (flag r "gradingResult") = Ok (fa, r1)
    /\ truthy fa = truthy (assertion_text r)
    /\ (truthy fa = true ->
        fa = assertion_text r /\ r1 = VStr (text_of (failed_reason r)))
    /\ (truthy fa = false -> truthy (flag r "gradingResult") = false ->
        r1 = VStr []).
Proof.
  unfold well_formed_grading. intros H.
  apply andb_true_iff in H as [H _]. apply andb_true_iff in H as [_ Hcr].
  unfold assertion_text, failed_reason, failed_sub, sub_assertions, from_components.
  set (g := flag r "gradingResult") in *.
  rewrite and_get_spec.
  destruct (truthy g) eqn:Hg.
  - cbn [bind].
    destruct (truthy (flag g "componentResults")) eqn:Ht.
    + destruct (flag g "componentResults") as [| |b|n|s|items|o] eqn:Ecr;
        try (cbn [negb] in Hcr; rewrite Ht in Hcr; discriminate).
      cbn [find_failed_in]. rewrite (find_failed_objects items Hcr). cbn [bind].
      destruct (List.find _ items) as [c|] eqn:Ef; cbn [from_option id].
      * destruct (find_object items c Hcr Ef) as [Hobj Htxt].
        rewrite (object_truthy c Hobj).
        rewrite (get_truthy c "assertion" (object_truthy c Hobj)). cbn [bind].
        rewrite and_get_spec. cbn [bind].
        rewrite (get_truthy c "reason" (object_truthy c Hobj)). cbn [bind].
        rewrite (textual_or_else _ Htxt).
        eexists _, _. split; [reflexivity|].
        destruct (truthy (flag c "assertion")) eqn:Ea.
        -- repeat split; auto. intros Hf. congruence.
        -- rewrite (flag_falsy _ "value" Ea). cbn [truthy].
           repeat split; try congruence.
      * cbn [truthy]. eexists _, _; repeat split; try reflexivity; discriminate.
    + assert (Hsub : match flag g "componentResults" with
                     | VArr items => items
                     | _ => []
                     end = []).
      { destruct (flag g "componentResults"); try reflexivity; discriminate. }
      rewrite Hsub. cbn [List.find from_option id].
      eexists _, _; repeat split; try reflexivity; cbn [truthy];
      try discriminate; intros; reflexivity.
  - rewrite (flag_falsy g "componentResults" Hg). cbn [bind]. rewrite Hg.
    cbn [truthy from_option id].
    eexists _, _; repeat split; try reflexivity; cbn [truthy];
      try discriminate; intros; reflexivity.
Qed.

Lemma well_formed_parts (r : value) :
  well_formed_entry r = true ->
  well_formed_grading r = true
  /\ printable (entry_input r) = true /\ printable (entry_output r) = true.
Proof.
  unfold well_formed_entry. intros H.
  apply andb_true_iff in H as [H Ho]. apply andb_true_iff in H as [H Hi].
  auto.
Qed.

(** Induction on a value and, for an array, on its elements. *)
Lemma value_nested_ind (P : value -> Prop) :
  P VUndefined -> P VNull -> (forall b, P (VBool b)) -> (forall n, P (VNum n)) ->
  (forall s, P (VStr s)) ->
  (forall items, Forall P items -> P (VArr items)) ->
  (forall fields, P (VObj fields)) ->
  forall v, P v.
Proof.
  intros Hu Hn Hb Hz Hs Ha Ho. fix IH 1. intros v.
  destruct v as [| |b|n|s|items|fields];
    [exact Hu|exact Hn|apply Hb|apply Hz|apply Hs| |apply Ho].
  apply Ha. induction items as [|x items IHitems]; constructor;
    [apply IH|exact IHitems].
Qed.

(** String(v) gives a text exactly for the printable values, and throws a
    TypeError for the others, all of which count as true. *)
Lemma to_string_spec (v : value) :
  if printable v then exists s, to_string v = Ok s
  else to_string v = Throw TypeError /\ truthy v = true.
Proof.
  induction v as [| |b|n|s|items IH|fields] using value_nested_ind;
    try (cbn [printable]; eexists; reflexivity).
  - cbn [printable]. destruct b; eexists; reflexivity.
  - cbn [printable to_string].
    induction IH as [|x items Hx _ IHitems]; [eexists; reflexivity|].
    cbn [forallb map_res].
    assert (Hel : if printable x
                  then exists s, match x with
                                 | VUndefined | VNull => Ok []
                                 | _ => to_string x
                                 end = Ok s
                  else match x with
                       | VUndefined | VNull => Ok []
                       | _ => to_string x
                       end = Throw TypeError).
    { destruct (printable x) eqn:Ex.
      - destruct x; try exact Hx; eexists; reflexivity.
      - destruct x; try discriminate; apply Hx. }
    destruct (printable x).
    + destruct Hel as (s & ->). cbn [andb bind].
      destruct (forallb printable items).
      * destruct IHitems as (t & Ht).
        destruct (map_res _ items) as [ys|e]; [|discriminate].
        eexists. reflexivity.
      * destruct IHitems as [Ht _].
        destruct (map_res _ items) as [ys|e]; [discriminate|].
        split; [|reflexivity]. cbn [bind] in *. exact Ht.
    + rewrite Hel. split; reflexivity.
  - cbn [printable to_string]. destruct (has_own (js "toString") fields).
    + split; reflexivity.
    + eexists. reflexivity.
Qed.

(** String on numbers, arrays and objects, on examples. *)
Lemma to_string_examples :
  to_string (VNum 42) = Ok (js "42")
  /\ to_string (VNum (10 ^ 21 - 1)) = Ok (js "1e+21")
  /\ to_string (VNum (10 ^ 20)) = Ok (js "100000000000000000000")
  /\ to_string (VNum (2 ^ 53 + 1)) = Ok (js "9007199254740992")
  /\ to_string (VNum (2 ^ 60)) = Ok (js "1152921504606847000")
  /\ to_string (VNum (- 2 ^ 70)) = Ok (js "-1.1805916207174113e+21")
  /\ to_string (VArr [VNum 1; VNull; VStr (js "a"); VArr [VBool true]; VObj []])
     = Ok (js "1,,a,true,[object Object]")
  /\ to_string (VObj [(js "toString", VNull)]) = Throw TypeError
  /\ to_string (VArr [VNum 1; VObj [(js "toString", VNum 1)]])
     = Throw TypeError.
Proof. vm_compute. repeat split. Qed.

(** The text the extractor takes of a printable field. *)
Lemma field_text_spec (v : value) :
  printable v = true ->
  (if truthy v then to_string v else Ok []) = Ok (field_text v).
Proof.
  intros Hp. pose proof (to_string_spec v) as H. rewrite Hp in H.
  destruct H as (t & Ht). unfold field_text.
  destruct v as [| |b|n|s|items|fields]; try (rewrite Ht); cbn [truthy];
    try reflexivity.
  - destruct b; reflexivity.
  - destruct (negb (n =? 0)%Z); reflexivity.
  - destruct s; [reflexivity|]. symmetry. exact Ht.
Qed.

Lemma field_text_throws (v : value) :
  printable v = false ->
  (if truthy v then to_string v else Ok []) = Throw TypeError.
Proof.
  intros Hp. pose proof (to_string_spec v) as H. rewrite Hp in H.
  destruct H as [-> ->]. reflexivity.
Qed.

Lemma input_of_object (fields : list (jsstring * value)) :
  input_of (VObj fields)
  = if truthy (entry_input (VObj fields))
    then to_string (entry_input (VObj fields)) else Ok [].
Proof.
  unfold entry_input, input_of.
  assert (E : flag (VObj fields) "testCase" = assoc (js "testCase") fields) by reflexivity.
  rewrite E. cbn [get bind].
  rewrite and_get_spec. cbn [bind]. rewrite and_get_spec. cbn [bind].
  set (tc := assoc (js "testCase") fields).
  destruct (truthy tc) eqn:Htc.
  - destruct (truthy (flag tc "vars")) eqn:Hv; [reflexivity|].
    rewrite (flag_falsy _ "input" Hv), Hv. reflexivity.
  - rewrite (flag_falsy tc "vars" Htc).
    repeat (rewrite Htc; cbv beta iota). reflexivity.
Qed.

Lemma output_of_object (fields : list (jsstring * value)) :
  output_of (VObj fields)
  = if truthy (entry_output (VObj fields))
    then to_string (entry_output (VObj fields)) else Ok [].
Proof.
  unfold entry_output, output_of.
  assert (E : flag (VObj fields) "response" = assoc (js "response") fields) by reflexivity.
  rewrite E. cbn [get bind].
  rewrite and_get_spec. cbn [bind].
  set (resp := assoc (js "response") fields).
  destruct (truthy resp) eqn:Hr; [reflexivity|].
  rewrite (flag_falsy resp "output" Hr).
  repeat (rewrite Hr; cbv beta iota). reflexivity.
Qed.
End ExtractFacts.



(** ** Refinement Patcher *)

Section PatchFacts.

Lemma strip_prefix_split (p q s r : jsstring) :
  strip_prefix (p ++ q) s = Some r -> strip_prefix p s = Some (q ++ r).
Proof.
  intros H. apply strip_prefix_Some in H as ->.
  rewrite <- app_assoc. apply strip_prefix_app.
Qed.

Lemma match_tests_Some (yaml m1 body : jsstring) :
  match_tests yaml = Some (m1, body) ->
  yaml = m1 ++ js "tests:" ++ [nl] ++ body.
Proof.
  revert m1. induction yaml as [|c rest IH]; intros m1; [discriminate|].
  cbn [match_tests].
  destruct (if c =? nl then strip_prefix (js "tests:" ++ [nl]) rest else None)
    as [b|] eqn:E.
  - intros [= <- <-]. destruct (c =? nl); [|discriminate].
    apply strip_prefix_Some in E as ->. rewrite <- app_assoc. reflexivity.
  - destruct (match_tests rest) as [[h b]|]; [|discriminate].
    intros [= <- <-]. rewrite (IH h eq_refl) at 1. reflexivity.
Qed.

Lemma match_tests_section (yaml : jsstring) :
  has_tests_section yaml = true -> exists m1 body, match_tests yaml = Some (m1, body).
Proof.
  unfold has_tests_section.
  induction yaml as [|c rest IH]; [discriminate|].
  cbn [includes match_tests]. intros H.
  destruct (if c =? nl then strip_prefix (js "tests:" ++ [nl]) rest else None)
    as [b|] eqn:E; [eauto|].
  apply orb_true_iff in H as [H|H].
  - exfalso. unfold starts_with in H. cbn [app strip_prefix] in H.
    rewrite N.eqb_sym in H. destruct (c =? nl); [|discriminate].
    change (strip_prefix (js "tests:" ++ [nl]) rest) with
      (strip_prefix ([] ++ js "tests:" ++ [nl]) rest) in E.
    cbn [app] in E. rewrite E in H. discriminate.
  - destruct (IH H) as (m1 & body & ->). eauto.
Qed.

Lemma match_tests_line (yaml : jsstring) (p : jsstring * jsstring) :
  match_tests yaml = Some p -> has_tests_line yaml = true.
Proof.
  revert p. induction yaml as [|c rest IH]; intros p; [discriminate|].
  cbn [match_tests has_tests_line].
  destruct (if c =? nl then strip_prefix (js "tests:" ++ [nl]) rest else None)
    as [b|] eqn:E.
  - intros _. destruct (c =? nl); [|discriminate].
    apply strip_prefix_split in E. rewrite E. reflexivity.
  - destruct (match_tests rest) as [[h b]|]; [|discriminate].
    intros _. rewrite (IH (h, b) eq_refl). apply orb_true_r.
Qed.

Lemma patch_failure_skip (byIndex : gmap Z jsstring) (blocks : list jsstring)
    (f : failure) :
  byIndex !! f_testIndex f = None -> patch_failure byIndex blocks f = blocks.
Proof. intros H. unfold patch_failure. rewrite H. reflexivity. Qed.

Lemma patch_failures_skip (byIndex : gmap Z jsstring) (blocks : list jsstring)
    (failures : list failure) :
  Forall (fun f => byIndex !! f_testIndex f = None) failures ->
  foldl (patch_failure byIndex) blocks failures = blocks.
Proof.
  induction 1 as [|f failures Hf _ IH]; [reflexivity|].
  cbn [foldl]. rewrite (patch_failure_skip _ _ _ Hf). exact IH.
Qed.




End PatchFacts.

(** C2: for every document with a tests: section and every sequence of
    failure records, patchYaml with an empty sequence of refinements writes
    a document identical to the input. *)
Theorem patch_idempotence (fs : gmap jsstring jsstring)
    (yamlPath outputPath yaml : jsstring) (failures : list failure) :
  fs !! yamlPath = Some yaml ->
  has_tests_section yaml = true ->
  patch_text yaml failures [] = Ok yaml
  /\ patchYaml fs yamlPath failures [] outputPath
     = (<[outputPath := yaml]> fs, Ok tt).
Proof.
  intros Hfs Hsec.
  assert (Htext : patch_text yaml failures [] = Ok yaml).
  { destruct (match_tests_section yaml Hsec) as (m1 & body & Hm).
    unfold patch_text. rewrite Hm. cbn [refinementsByIndex foldl].
    rewrite patch_failures_skip.
    - unfold split_blocks.
      rewrite (join_split_at at_block_sep at_block_sep_nl body).
      rewrite (match_tests_Some yaml m1 body Hm).
      rewrite <- !app_assoc. reflexivity.
    - apply Forall_forall. intros f _. apply lookup_empty. }
  split; [exact Htext|]. unfold patchYaml. rewrite Hfs, Htext. reflexivity.
Qed.

Lemma patch_idempotence_witness :
  let yaml := js "description: demo" ++ [nl] ++ js "tests:" ++ [nl]
              ++ js "- vars:" ++ [nl] ++ js "    value: 'a'" in
  patch_text yaml
    [{| f_testIndex := 1; f_failingAssertion := js "a" |}] [] = Ok yaml.
Proof.
  intros yaml.
  apply (patch_idempotence {[js "in.yaml" := yaml]} (js "in.yaml")
           (js "out.yaml") yaml).
  - reflexivity.
  - reflexivity.
Defined.

(** C10: for every document without a line that consists of "tests:" and
    comes after a newline, patchYaml throws the error "Could not find
    tests: section in YAML": nothing is substituted and the file system is
    left as it was, no output is written. *)
Theorem patch_requires_tests_header (fs : gmap jsstring jsstring)
    (yamlPath outputPath yaml : jsstring) (failures : list failure)
    (refinements : list refinement) :
  fs !! yamlPath = Some yaml ->
  has_tests_line yaml = false ->
  patch_text yaml failures refinements = Throw NoTestsSection
  /\ patchYaml fs yamlPath failures refinements outputPath
     = (fs, Throw NoTestsSection).
Proof.
  intros Hfs Hline.
  assert (Htext : patch_text yaml failures refinements = Throw NoTestsSection).
  { unfold patch_text. destruct (match_tests yaml) as [[m1 body]|] eqn:Hm;
      [|reflexivity].
    apply match_tests_line in Hm. congruence. }
  split; [exact Htext|]. unfold patchYaml. rewrite Hfs, Htext. reflexivity.
Qed.

Lemma patch_requires_tests_header_witness :
  let yaml := js "tests:" ++ [nl] ++ js "- vars:" ++ [nl] ++ js "    value: 'a'" in
  patchYaml {[js "in.yaml" := yaml]} (js "in.yaml")
    [{| f_testIndex := 1; f_failingAssertion := js "a" |}]
    [{| r_testIndex := 1; r_refinedAssertion := js "b" |}] (js "out.yaml")
  = ({[js "in.yaml" := yaml]}, Throw NoTestsSection).
Proof.
  intros yaml.
  apply (patch_requires_tests_header {[js "in.yaml" := yaml]} (js "in.yaml")
           (js "out.yaml") yaml).
  - reflexivity.
  - reflexivity.
Defined.

Section AlignmentFacts.

Lemma includes_piece (needle : jsstring) (pieces : list jsstring) (b : jsstring) :
  b ∈ pieces -> includes needle b = true ->
  includes needle (join [nl] pieces) = true.
Proof.
  intros Hin Hb. apply includes_true in Hb as (pre & post & ->).
  induction pieces as [|p pieces IH]; [inversion Hin|].
  apply elem_of_cons in Hin as [<-|Hin].
  - cbn [join]. destruct pieces.
    + apply includes_app.
    + rewrite <- !app_assoc. apply includes_app.
  - cbn [join]. destruct pieces as [|q pieces]; [inversion Hin|].
    destruct (includes_true _ _ (IH Hin)) as (pre' & post' & ->).
    replace (p ++ [nl] ++ pre' ++ needle ++ post')
      with ((p ++ [nl] ++ pre') ++ needle ++ post')
      by (rewrite <- !app_assoc; reflexivity).
    apply includes_app.
Qed.

(** The pieces of a text that ends just before a separator, followed by
    the pieces of what comes after the separator. *)
Lemma split_at_junction (P : N -> jsstring -> bool) (h s : jsstring) (c : N) :
  (forall c r, P c r = true -> c = nl) ->
  P c s = true ->
  exists x hs, split_at P (h ++ c :: s) = (x :: hs) ++ split_at P s
               /\ join [nl] (x :: hs) = h.
Proof.
  intros HP Hc. induction h as [|d h (x & hs & Hsplit & Hjoin)].
  - exists [], []. cbn [app split_at]. rewrite Hc. split; reflexivity.
  - cbn [app split_at]. destruct (P d (h ++ c :: s)) eqn:Ed.
    + exists [], (x :: hs). rewrite Hsplit. split; [reflexivity|].
      apply HP in Ed as ->. cbn [join] in *. rewrite Hjoin. reflexivity.
    + rewrite Hsplit. exists (d :: x), hs. split; [reflexivity|].
      cbn [join] in *. destruct hs; rewrite <- Hjoin; reflexivity.
Qed.

Lemma filter_none (f : jsstring -> bool) (l : list jsstring) :
  Forall (fun b => f b = false) l -> List.filter f l = [].
Proof.
  induction 1 as [|b l Hb _ IH]; [reflexivity|].
  cbn [List.filter]. rewrite Hb. exact IH.
Qed.

(** For a document whose body starts with a record marker and whose
    header has no "vars:", the blocks of the document are the pieces of the
    body. *)
Lemma testBlocks_of_body (yaml m1 body : jsstring) :
  match_tests yaml = Some (m1, body) ->
  marker_at body = true ->
  includes (js "vars:") (m1 ++ js "tests:") = false ->
  testBlocks yaml = split_blocks body.
Proof.
  intros Hm Hbody Hhdr.
  rewrite (match_tests_Some yaml m1 body Hm).
  replace (m1 ++ js "tests:" ++ [nl] ++ body)
    with ((m1 ++ js "tests:") ++ nl :: body)
    by (rewrite <- !app_assoc; reflexivity).
  destruct (split_at_junction at_block_sep (m1 ++ js "tests:") body nl
              at_block_sep_nl) as (x & hs & Hsplit & Hjoin).
  { unfold at_block_sep. rewrite Hbody. reflexivity. }
  unfold testBlocks, split_blocks. rewrite Hsplit, List.filter_app.
  assert (Hhs : List.filter (includes (js "vars:")) (x :: hs) = []).
  { apply filter_none, Forall_forall. intros b Hb.
    destruct (includes (js "vars:") b) eqn:E; [|reflexivity].
    pose proof (includes_piece _ (x :: hs) b Hb E) as Hin.
    rewrite Hjoin, Hhdr in Hin. discriminate. }
  rewrite Hhs. cbn [app]. apply filter_all.
  destruct (split_at_cons at_block_sep body) as (p & ps & Hs).
  pose proof (first_block_marker body Hbody) as Hp.
  pose proof (later_blocks_marker body) as Hps.
  unfold split_blocks in Hp, Hps. rewrite Hs in *. cbn [hd tl] in *.
  constructor; [apply marker_includes_vars, Hp|].
  eapply Forall_impl; [exact Hps|]. intros b. apply marker_includes_vars.
Qed.

End AlignmentFacts.

Section LocalityFacts.





End LocalityFacts.




(** * Further properties *)

(** ** The text functions of refine-assertions.js *)

Section TextFacts.

Lemma all_space_rev (s : jsstring) :
  forallb is_space (rev s) = forallb is_space s.
Proof.
  induction s as [|c s IH]; [reflexivity|].
  cbn [rev forallb]. rewrite forallb_app, IH. cbn [forallb].
  rewrite andb_true_r. apply andb_comm.
Qed.

Lemma trim_start_app (a b : jsstring) :
  trim_start (a ++ b)
  = if forallb is_space a then trim_start b else trim_start a ++ b.
Proof.
  unfold trim_start. induction a as [|c a IH]; [reflexivity|].
  cbn [app span forallb]. destruct (is_space c); [|reflexivity].
  cbn [andb]. destruct (span is_space (a ++ b)) as [x y].
  destruct (span is_space a) as [x' y']. exact IH.
Qed.

(** [trim_end], read from the left. *)
Lemma trim_end_cons (c : N) (r : jsstring) :
  trim_end (c :: r)
  = if forallb is_space (c :: r) then [] else c :: trim_end r.
Proof.
  unfold trim_end. cbn [rev]. rewrite trim_start_app, all_space_rev.
  cbn [forallb]. destruct (forallb is_space r) eqn:Hr.
  - rewrite andb_true_r. unfold trim_start. cbn [span].
    destruct (is_space c); cbn [snd rev app]; [reflexivity|].
    assert (H : trim_start (rev r) = []).
    { pose proof (trim_start_app (rev r) []) as H.
      rewrite app_nil_r, all_space_rev, Hr in H. exact H. }
    unfold trim_start in H. rewrite H. reflexivity.
  - rewrite andb_false_r, rev_app_distr. reflexivity.
Qed.

Lemma trim_start_head (s : jsstring) :
  match trim_start s with [] => True | c :: _ => is_space c = false end.
Proof.
  unfold trim_start. destruct (span is_space s) as [a b] eqn:E.
  apply span_spec in E as (_ & _ & H). exact H.
Qed.

Lemma trim_start_fixed (s : jsstring) :
  match s with [] => True | c :: _ => is_space c = false end ->
  trim_start s = s.
Proof.
  destruct s as [|c s]; [reflexivity|]. intros H.
  unfold trim_start. cbn [span]. rewrite H. reflexivity.
Qed.

Lemma trim_end_head (s : jsstring) :
  match s with [] => True | c :: _ => is_space c = false end ->
  match trim_end s with [] => True | c :: _ => is_space c = false end.
Proof.
  destruct s as [|c s]; [intros _; exact I|]. intros H.
  rewrite trim_end_cons. cbn [forallb]. rewrite H. exact H.
Qed.

Lemma trim_idempotent (s : jsstring) : trim (trim s) = trim s.
Proof.
  unfold trim.
  rewrite (trim_start_fixed (trim_end (trim_start s)))
    by apply trim_end_head, trim_start_head.
  unfold trim_end at 1 2. rewrite rev_involutive.
  rewrite (trim_start_fixed (trim_start _)) by apply trim_start_head.
  reflexivity.
Qed.

Lemma collapsed_weaken (s : jsstring) :
  collapsed true s = true -> collapsed false s = true.
Proof.
  destruct s as [|c s]; [reflexivity|]. cbn [collapsed].
  destruct (is_space c); [discriminate|]. auto.
Qed.

Lemma collapse_ws_collapsed (b : bool) (s : jsstring) :
  collapsed b (collapse_ws b s) = true.
Proof.
  revert b. induction s as [|c s IH]; intros b; [reflexivity|].
  cbn [collapse_ws]. destruct (is_space c) eqn:Hc.
  - destruct b; [apply IH|]. cbn [collapsed].
    change (is_space 32) with true. cbn. apply IH.
  - cbn [collapsed]. rewrite Hc. apply IH.
Qed.

Lemma collapse_ws_fixed (b : bool) (s : jsstring) :
  collapsed b s = true -> collapse_ws b s = s.
Proof.
  revert b. induction s as [|c s IH]; intros b; [reflexivity|].
  cbn [collapsed collapse_ws]. destruct (is_space c).
  - intros H. apply andb_true_iff in H as [H Hs].
    apply andb_true_iff in H as [Hb Hc].
    destruct b; [discriminate|]. apply N.eqb_eq in Hc as ->.
    rewrite (IH true Hs). reflexivity.
  - intros H. rewrite (IH false H). reflexivity.
Qed.

Lemma trim_start_collapsed (s : jsstring) :
  collapsed false s = true -> collapsed false (trim_start s) = true.
Proof.
  destruct s as [|c s]; [reflexivity|]. unfold trim_start. cbn [span collapsed].
  destruct (is_space c) eqn:Hc.
  - intros H. apply andb_true_iff in H as [_ H].
    destruct s as [|c' s]; [reflexivity|]. cbn [collapsed] in H. cbn [span].
    destruct (is_space c') eqn:Hc'; [discriminate|].
    cbn [snd collapsed]. rewrite Hc'. exact H.
  - intros H. cbn [snd collapsed]. rewrite Hc. exact H.
Qed.

Lemma trim_end_collapsed (b : bool) (s : jsstring) :
  collapsed b s = true -> collapsed b (trim_end s) = true.
Proof.
  revert b. induction s as [|c s IH]; intros b; [reflexivity|].
  rewrite trim_end_cons. destruct (forallb is_space (c :: s)); [reflexivity|].
  cbn [collapsed]. destruct (is_space c).
  - intros H. apply andb_true_iff in H as [H Hs]. rewrite H. apply IH, Hs.
  - apply IH.
Qed.

Lemma norm_collapsed (s : jsstring) : collapsed false (norm s) = true.
Proof.
  unfold norm, trim. apply trim_end_collapsed, trim_start_collapsed,
    collapse_ws_collapsed.
Qed.

Lemma collapse_ws_app (b : bool) (x s : jsstring) :
  collapse_ws b (x ++ s)
  = collapse_ws b x ++ collapse_ws (ends_in_space b x) s.
Proof.
  revert b. induction x as [|c x IH]; intros b; [reflexivity|].
  cbn [app collapse_ws ends_in_space]. destruct (is_space c) eqn:Hc.
  - destruct b; rewrite IH; reflexivity.
  - rewrite IH. reflexivity.
Qed.

Lemma collapse_ws_run (b : bool) (ws s : jsstring) :
  ws <> [] -> forallb is_space ws = true ->
  collapse_ws b (ws ++ s) = (if b then [] else [32]) ++ collapse_ws true s.
Proof.
  intros Hne Hws. revert b. induction ws as [|c ws IH]; intros b; [congruence|].
  cbn [forallb] in Hws. apply andb_true_iff in Hws as [Hc Hws].
  cbn [app collapse_ws]. rewrite Hc.
  destruct ws as [|c' ws].
  - destruct b; reflexivity.
  - rewrite (IH ltac:(discriminate) Hws true). destruct b; reflexivity.
Qed.

Lemma undouble_other (c : N) (r : jsstring) :
  (c =? quote) = false -> undouble (c :: r) = c :: undouble r.
Proof.
  intros Hc. destruct r as [|c' r]; [reflexivity|].
  cbn [undouble]. rewrite Hc. reflexivity.
Qed.

Lemma undouble_escape (s : jsstring) :
  undouble (flat_map (fun c => if c =? quote then [quote; quote] else [c]) s) = s.
Proof.
  induction s as [|c s IH]; [reflexivity|].
  cbn [flat_map]. destruct (c =? quote) eqn:Hc.
  - apply N.eqb_eq in Hc as ->. cbn [app undouble].
    rewrite N.eqb_refl. cbn [andb]. rewrite IH. reflexivity.
  - cbn [app]. rewrite (undouble_other c _ Hc), IH. reflexivity.
Qed.

Lemma escapeForYaml_shape (s : jsstring) :
  exists body, escapeForYaml s = quote :: body ++ [quote]
    /\ body = flat_map (fun c => if c =? quote then [quote; quote] else [c]) s.
Proof. eexists. split; reflexivity. Qed.

Lemma trim_quoted (body : jsstring) :
  trim (quote :: body ++ [quote]) = quote :: body ++ [quote].
Proof.
  unfold trim. rewrite trim_start_fixed by reflexivity.
  unfold trim_end. change (quote :: body ++ [quote]) with ((quote :: body) ++ [quote]).
  rewrite rev_app_distr. cbn [rev app]. rewrite trim_start_fixed by reflexivity.
  cbn [rev]. rewrite rev_app_distr, rev_involutive. reflexivity.
Qed.

Lemma unescape_escape (s : jsstring) : unescapeYamlValue (escapeForYaml s) = s.
Proof.
  destruct (escapeForYaml_shape s) as (body & -> & Hb).
  unfold unescapeYamlValue. rewrite trim_quoted.
  unfold strip_quotes. change (is_quote quote) with true. cbn match.
  rewrite rev_app_distr. cbn [rev app]. change (is_quote quote) with true.
  cbn match. rewrite rev_involutive, Hb. apply undouble_escape.
Qed.

End TextFacts.

(** X1: quoting a text for the YAML document and reading the quoted value
    back gives the text again, whatever quotes and white space it holds; so
    two texts with the same quoted form are equal. *)
Theorem escape_unescape_roundtrip :
  (forall s : jsstring, unescapeYamlValue (escapeForYaml s) = s)
  /\ (forall s t : jsstring, escapeForYaml s = escapeForYaml t -> s = t).
Proof.
  split; [apply unescape_escape|].
  intros s t H. rewrite <- (unescape_escape s), <- (unescape_escape t), H.
  reflexivity.
Qed.

(** X2: norm is idempotent, and its result has no white space at either
    end and no white space other than single spaces between other
    characters. *)
Theorem norm_idempotent (s : jsstring) :
  norm (norm s) = norm s
  /\ collapsed false (norm s) = true
  /\ trim (norm s) = norm s.
Proof.
  assert (Ht : trim (norm s) = norm s) by (unfold norm; apply trim_idempotent).
  split; [|split; [apply norm_collapsed|exact Ht]].
  unfold norm at 1. rewrite (collapse_ws_fixed false _ (norm_collapsed s)).
  exact Ht.
Qed.

(** X3: norm does not see how much white space separates two parts of a
    text, nor which white-space characters: any two non-empty runs of white
    space give the same result. *)
Theorem norm_whitespace_insensitive (x y ws1 ws2 : jsstring) :
  ws1 <> [] -> forallb is_space ws1 = true ->
  ws2 <> [] -> forallb is_space ws2 = true ->
  norm (x ++ ws1 ++ y) = norm (x ++ ws2 ++ y).
Proof.
  intros Hn1 Hs1 Hn2 Hs2. unfold norm.
  rewrite (collapse_ws_app false x (ws1 ++ y)).
  rewrite (collapse_ws_app false x (ws2 ++ y)).
  rewrite (collapse_ws_run _ ws1 y Hn1 Hs1), (collapse_ws_run _ ws2 y Hn2 Hs2).
  reflexivity.
Qed.

Lemma norm_whitespace_insensitive_witness :
  norm (js "a  &&" ++ [9; 10] ++ js "b") = norm (js "a  &&" ++ [32] ++ js "b").
Proof.
  apply (norm_whitespace_insensitive (js "a  &&") (js "b") [9; 10] [32]).
  - discriminate.
  - reflexivity.
  - discriminate.
  - reflexivity.
Defined.

(** ** patchYaml beyond one refinement *)

Section PatchMoreFacts.

Lemma span_all (p : N -> bool) (a : jsstring) :
  Forall (fun c => p c = true) a -> span p a = (a, []).
Proof.
  intros H. rewrite <- (app_nil_r a) at 1. apply span_app; [exact H|exact I].
Qed.

(** The first group of a matched value line is white space, [value:] and
    white space. *)
Lemma match_value_line_prefix (line m1 m2 : jsstring) :
  match_value_line line = Some (m1, m2) ->
  exists ws1 ws2,
    m1 = ws1 ++ js "value:" ++ ws2
    /\ Forall (fun c => is_space c = true) ws1
    /\ Forall (fun c => is_space c = true) ws2.
Proof.
  unfold match_value_line.
  destruct (span is_space line) as [ws1 r1] eqn:E1.
  apply span_spec in E1 as (_ & Hws1 & _).
  destruct (strip_prefix (js "value:") r1) as [r2|]; [|discriminate].
  destruct (span is_space r2) as [ws2 r3] eqn:E3.
  apply span_spec in E3 as (_ & Hws2 & _).
  destruct r3 as [|c r3].
  - destruct (rev ws2) as [|c before] eqn:Er; [discriminate|].
    destruct (is_line_terminator c); [discriminate|].
    intros [= <- <-]. exists ws1, (rev before). repeat split; auto.
    assert (Hws : ws2 = rev before ++ [c]).
    { rewrite <- (rev_involutive ws2), Er. reflexivity. }
    rewrite Hws in Hws2. apply Forall_app in Hws2 as [H _]. exact H.
  - destruct (forallb _ (c :: r3)); [|discriminate].
    intros [= <- <-]. exists ws1, ws2. auto.
Qed.

Lemma escapeForYaml_no_terminator (s : jsstring) :
  no_line_terminator s = true -> no_line_terminator (escapeForYaml s) = true.
Proof.
  unfold no_line_terminator, escapeForYaml. intros H.
  rewrite !forallb_app. cbn [forallb]. change (is_line_terminator quote) with false.
  cbn [negb andb]. rewrite andb_true_r.
  induction s as [|c s IH]; [reflexivity|].
  cbn [forallb] in H. apply andb_true_iff in H as [Hc Hs].
  cbn [flat_map]. rewrite forallb_app, (IH Hs), andb_true_r.
  destruct (N.eqb_spec c quote) as [->|_]; [reflexivity|].
  cbn [forallb]. rewrite Hc. reflexivity.
Qed.

Lemma match_patched_line (ws1 ws2 refined : jsstring) :
  Forall (fun c => is_space c = true) ws1 ->
  Forall (fun c => is_space c = true) ws2 ->
  no_line_terminator refined = true ->
  match_value_line ((ws1 ++ js "value:" ++ ws2) ++ escapeForYaml refined)
  = Some (ws1 ++ js "value:" ++ ws2, escapeForYaml refined).
Proof.
  intros H1 H2 Hr. unfold match_value_line.
  rewrite <- !app_assoc.
  rewrite (span_app is_space ws1 _ H1) by reflexivity.
  rewrite strip_prefix_app.
  rewrite (span_app is_space ws2 (escapeForYaml refined) H2) by reflexivity.
  pose proof (escapeForYaml_no_terminator refined Hr) as Hq.
  unfold no_line_terminator in Hq.
  destruct (escapeForYaml_shape refined) as (body & He & _).
  rewrite He in *. rewrite Hq. reflexivity.
Qed.

Lemma patch_lines_none (failNorm refined : jsstring) (lines : list jsstring) :
  Forall (fun l => line_matches failNorm l = None) lines ->
  patch_lines failNorm refined lines = lines.
Proof.
  induction 1 as [|l lines Hl _ IH]; [reflexivity|].
  cbn [patch_lines]. rewrite Hl, IH. reflexivity.
Qed.

Lemma join_split_lines (block : jsstring) : join [nl] (split_lines block) = block.
Proof.
  unfold split_lines. apply join_split_at.
  intros c rest Hc. apply N.eqb_eq, Hc.
Qed.



(** A failure record without a matching line in any block changes
    nothing. *)
Lemma patch_failure_no_match (byIndex : gmap Z jsstring)
    (blocks : list jsstring) (f : failure) :
  Forall (fun b => Forall (fun l => line_matches (norm (f_failingAssertion f)) l
                                    = None) (split_lines b)) blocks ->
  patch_failure byIndex blocks f = blocks.
Proof.
  intros H. unfold patch_failure.
  destruct (default [] (byIndex !! f_testIndex f)) as [|c refined]; [reflexivity|].
  destruct ((f_testIndex f - 1 <? 0)%Z
            || (Z.of_nat (length blocks) <=? f_testIndex f - 1)%Z); [reflexivity|].
  destruct (blocks !! Z.to_nat (f_testIndex f - 1)) as [block|] eqn:Eb;
    [|reflexivity].
  rewrite Forall_forall in H.
  rewrite patch_lines_none
    by (apply H; eapply list_elem_of_lookup_2; exact Eb).
  rewrite join_split_lines. apply list_insert_id, Eb.
Qed.

Lemma refinementsByIndex_snoc (rs : list refinement) (r : refinement) :
  refinementsByIndex (rs ++ [r])
  = <[r_testIndex r := r_refinedAssertion r]> (refinementsByIndex rs).
Proof. unfold refinementsByIndex. rewrite foldl_app. reflexivity. Qed.

End PatchMoreFacts.

(** X4: a patched line is again a value line: when the refined text has
    no line terminator, the line patchYaml writes for it is matched by the
    value pattern with the same key prefix, and its value reads back, after
    normalization, as the normalized refined text. *)
Theorem patched_line_matches (line m1 m2 refined : jsstring) :
  match_value_line line = Some (m1, m2) ->
  no_line_terminator refined = true ->
  match_value_line (m1 ++ escapeForYaml refined)
  = Some (m1, escapeForYaml refined)
  /\ line_matches (norm refined) (m1 ++ escapeForYaml refined) = Some m1.
Proof.
  intros Hm Hr.
  destruct (match_value_line_prefix line m1 m2 Hm) as (ws1 & ws2 & -> & H1 & H2).
  pose proof (match_patched_line ws1 ws2 refined H1 H2 Hr) as Hp.
  split; [exact Hp|]. unfold line_matches. rewrite Hp.
  destruct (escapeForYaml_shape refined) as (body & He & _).
  assert (Ht : trim (escapeForYaml refined) = escapeForYaml refined).
  { rewrite He. apply trim_quoted. }
  rewrite Ht, unescape_escape. unfold eqb_str.
  rewrite bool_decide_eq_true_2 by reflexivity. reflexivity.
Qed.

Lemma patched_line_matches_witness :
  line_matches (norm (js "output.includes('a')"))
    (js "    value: " ++ escapeForYaml (js "output.includes('a')"))
  = Some (js "    value: ").
Proof.
  apply (patched_line_matches (js "    value: 'old'") (js "    value: ")
           (js "'old'") (js "output.includes('a')")).
  - reflexivity.
  - reflexivity.
Defined.

(** X5: when no line of any block matches the failing assertion of any
    failure record, patchYaml writes the document unchanged, whatever the
    refinements are: a refinement that finds no line is skipped without an
    error. *)
Theorem patch_no_match_noop (yaml m1 body : jsstring)
    (failures : list failure) (refinements : list refinement) :
  match_tests yaml = Some (m1, body) ->
  Forall (fun f =>
            Forall (fun b =>
                      Forall (fun l => line_matches (norm (f_failingAssertion f)) l
                                       = None) (split_lines b))
              (split_blocks body)) failures ->
  patch_text yaml failures refinements = Ok yaml.
Proof.
  intros Hm Hno. unfold patch_text. rewrite Hm.
  assert (Hfold : foldl (patch_failure (refinementsByIndex refinements))
                    (split_blocks body) failures = split_blocks body).
  { induction Hno as [|f failures Hf _ IH]; [reflexivity|].
    cbn [foldl]. rewrite (patch_failure_no_match _ _ f Hf). exact IH. }
  rewrite Hfold. unfold split_blocks.
  rewrite (join_split_at at_block_sep at_block_sep_nl body).
  rewrite (match_tests_Some yaml m1 body Hm). rewrite <- !app_assoc. reflexivity.
Qed.

Lemma patch_no_match_noop_witness :
  let yaml := js "x" ++ [nl] ++ js "tests:" ++ [nl] ++ js "- vars:" ++ [nl]
              ++ js "  value: a" in
  patch_text yaml [{| f_testIndex := 1; f_failingAssertion := js "b" |}]
    [{| r_testIndex := 1; r_refinedAssertion := js "c" |}] = Ok yaml.
Proof.
  intros yaml.
  apply (patch_no_match_noop yaml (js "x" ++ [nl])
           (js "- vars:" ++ [nl] ++ js "  value: a")).
  - reflexivity.
  - repeat constructor.
Defined.



(** X7: when several refinements carry the same ordinal the last one is
    used: the table patchYaml builds maps an ordinal to the refined text of
    the last refinement that carries it, and to nothing when none does. *)
Theorem last_refinement_wins (refinements : list refinement) (k : Z) :
  refinementsByIndex refinements !! k
  = r_refinedAssertion
      <$> List.find (fun r => (r_testIndex r =? k)%Z) (rev refinements).
Proof.
  induction refinements as [|r rs IH] using rev_ind; [reflexivity|].
  rewrite refinementsByIndex_snoc, rev_app_distr. cbn [rev app List.find].
  rewrite lookup_insert. destruct (Z.eqb_spec (r_testIndex r) k) as [->|Hne].
  - rewrite decide_True by reflexivity. reflexivity.
  - rewrite decide_False by exact Hne. exact IH.
Qed.

(** ** The Segmenter on its own output, and across the scripts *)

Section SegmenterMoreFacts.

(** Splitting what follows the first separator gives the later pieces. *)
Lemma split_at_tail (P : N -> jsstring -> bool) (s first x : jsstring)
    (rest : list jsstring) :
  (forall c r, P c r = true -> c = nl) ->
  split_at P s = first :: x :: rest ->
  split_at P (join [nl] (x :: rest)) = x :: rest.
Proof.
  intros HP. revert first. induction s as [|c s IH]; intros first; [discriminate|].
  cbn [split_at]. destruct (P c s) eqn:E.
  - intros [= _ Hs]. rewrite <- Hs, (join_split_at P HP s). reflexivity.
  - destruct (split_at P s) as [|p ps] eqn:Es; [discriminate|].
    intros [= _ Hps]. subst ps. apply (IH p eq_refl).
Qed.

Lemma marker_at_app (p x : jsstring) :
  marker_at p = true -> marker_at (p ++ x) = true.
Proof.
  intros H. apply marker_at_elim in H as (ws & t & -> & Hne & Hws).
  rewrite <- app_comm_cons, <- !app_assoc.
  apply (marker_at_intro ws (t ++ x) Hne Hws).
Qed.

Lemma split_first_prefix (P : N -> jsstring -> bool) (s p : jsstring)
    (ps : list jsstring) :
  (forall c r, P c r = true -> c = nl) ->
  split_at P s = p :: ps -> exists x, s = p ++ x.
Proof.
  intros HP Hs. pose proof (join_split_at P HP s) as Hj. rewrite Hs in Hj.
  destruct ps as [|q ps]; cbn [join] in Hj.
  - exists []. rewrite app_nil_r. congruence.
  - eexists. symmetry. exact Hj.
Qed.

(** No piece has a separator inside. *)
Lemma pieces_atomic (s : jsstring) :
  Forall (fun b => count_nl_markers b = O) (split_blocks s).
Proof.
  unfold split_blocks, count_nl_markers.
  induction s as [|c s IH]; [repeat constructor|].
  cbn [split_at]. destruct (at_block_sep c s) eqn:E.
  - constructor; [reflexivity|exact IH].
  - destruct (split_at_cons at_block_sep s) as (p & ps & Es). rewrite Es in *.
    apply Forall_cons in IH as [Hp Hps]. constructor; [|exact Hps].
    cbn [count_sep]. rewrite Hp.
    destruct (at_block_sep c p) eqn:Ep; [|reflexivity]. exfalso.
    destruct (split_first_prefix _ s p ps at_block_sep_nl Es) as [x ->].
    unfold at_block_sep in *. apply andb_true_iff in Ep as [Hc Hm].
    rewrite Hc, (marker_at_app p x Hm) in E. discriminate.
Qed.

End SegmenterMoreFacts.

(** X8: re-segmenting is stable.  Every block the Segmenter yields is
    atomic (segmenting it again yields that block alone), and segmenting
    the newline-joined blocks of a document yields the same blocks. *)
Theorem segmenter_idempotent (D : jsstring) :
  Forall (fun b => testBlocks b = [b]) (testBlocks D)
  /\ testBlocks (join [nl] (testBlocks D)) = testBlocks D.
Proof.
  split.
  - unfold testBlocks at 2. apply Forall_forall. intros b Hb.
    apply list_elem_of_In, filter_In in Hb as [Hb Hv].
    apply list_elem_of_In in Hb.
    pose proof (pieces_atomic D) as Hat. rewrite Forall_forall in Hat.
    unfold testBlocks, split_blocks.
    rewrite (split_at_no_sep at_block_sep b (Hat b Hb)).
    cbn [List.filter]. rewrite Hv. reflexivity.
  - destruct (split_at_cons at_block_sep D) as (first & rest & Hs).
    pose proof (later_blocks_marker D) as Hm. unfold split_blocks in Hm.
    rewrite Hs in Hm. cbn [tl] in Hm.
    assert (Hrest : List.filter (includes (js "vars:")) rest = rest).
    { apply filter_all. eapply Forall_impl; [exact Hm|].
      intros b. apply marker_includes_vars. }
    assert (Htb : testBlocks D
                  = if includes (js "vars:") first then first :: rest else rest).
    { unfold testBlocks, split_blocks. rewrite Hs. cbn [List.filter].
      rewrite Hrest. reflexivity. }
    rewrite Htb. destruct (includes (js "vars:") first) eqn:Ef.
    + rewrite <- Hs, (join_split_at at_block_sep at_block_sep_nl D).
      unfold testBlocks, split_blocks. rewrite Hs. cbn [List.filter].
      rewrite Ef, Hrest. reflexivity.
    + destruct rest as [|x rest]; [reflexivity|].
      unfold testBlocks, split_blocks.
      rewrite (split_at_tail at_block_sep D first x rest at_block_sep_nl Hs).
      exact Hrest.
Qed.

(** X9: the blocks of the summary and the blocks of the patcher are the
    same.  For a document that patchYaml accepts, whose body starts with a
    record marker and whose header (up to tests:) has no "vars:", the test
    blocks of loadYAML are exactly the blocks patchYaml patches, so the
    k-th test of the report is the k-th block of the patcher. *)
Theorem blocks_aligned (yaml m1 body : jsstring) :
  match_tests yaml = Some (m1, body) ->
  marker_at body = true ->
  includes (js "vars:") (m1 ++ js "tests:") = false ->
  testBlocks yaml = split_blocks body.
Proof. exact (testBlocks_of_body yaml m1 body). Qed.

Lemma blocks_aligned_witness :
  testBlocks (js "description: demo" ++ [nl] ++ js "tests:" ++ [nl]
              ++ js "- vars:" ++ [nl] ++ js "    input: a" ++ [nl]
              ++ js "- vars:" ++ [nl] ++ js "    input: b")
  = split_blocks (js "- vars:" ++ [nl] ++ js "    input: a" ++ [nl]
                  ++ js "- vars:" ++ [nl] ++ js "    input: b").
Proof.
  apply (blocks_aligned _ (js "description: demo" ++ [nl])).
  - reflexivity.
  - reflexivity.
  - reflexivity.
Defined.

(** ** The groups of the summary, entry by entry *)

Section GroupFacts.

Lemma totalFail_insert_fresh (b : gmap jsstring Group) (k : jsstring) (g : Group) :
  b !! k = None -> totalFail (<[k := g]> b) = (totalFail b + fail g)%nat.
Proof.
  intros H. unfold totalFail.
  rewrite map_fold_insert_L; auto using fold_fail_comm.
Qed.

Lemma totalFail_record (b : gmap jsstring Group) (k : jsstring) (c : Case) :
  totalFail (<[k := record_case (default new_group (b !! k)) c]> b)
  = (totalFail b + if truthy (case_success c) then 0 else 1)%nat.
Proof.
  assert (Hrec : forall g, fail (record_case g c)
                           = (fail g + if truthy (case_success c) then 0 else 1)%nat).
  { intros g. unfold record_case. destruct (truthy (case_success c)); simpl; lia. }
  destruct (b !! k) as [g|] eqn:E; cbn [from_option id].
  - rewrite <- insert_delete_eq, totalFail_insert_fresh by apply lookup_delete_eq.
    rewrite <- (insert_delete_id b k g E) at 2.
    rewrite totalFail_insert_fresh by apply lookup_delete_eq.
    rewrite Hrec. lia.
  - rewrite totalFail_insert_fresh by exact E. rewrite Hrec. reflexivity.
Qed.

(** The loop of main keeps every property of the groups that recording one
    case keeps. *)
Lemma aggregate_invariant (R : list value) (T : list Test)
    (I : nat -> gmap jsstring Group -> Prop) :
  I O ∅ ->
  (forall i b r v, I i b -> R !! i = Some r -> verdict_value r = Ok v ->
     I (S i)
       (<[specKey_of T i :=
            record_case (default new_group (b !! specKey_of T i))
              {| case_index := i + 1; case_success := v;
                 case_requirement := requirement_of T i |}]> b)) ->
  Forall (fun r => is_object r = true) R ->
  (forall j, (j < length R)%nat -> inherited (specKey_of T j) = false) ->
  exists st, aggregate R T = Ok st /\ I (length R) (bySpec st).
Proof.
  intros H0 Hstep Hobj Hkeys. unfold aggregate.
  assert (Hloop : forall n i st,
             results st = R -> tests st = T -> I i (bySpec st) ->
             (i + n)%nat = length R ->
             exists st', forEach_results n i st = Ok st'
                         /\ I (length R) (bySpec st')).
  { induction n as [|n IH]; intros i st HR HT Hi Hlen.
    - exists st. split; [reflexivity|]. replace (length R) with i by lia. exact Hi.
    - cbn [forEach_results].
      destruct (lookup_lt_is_Some_2 R i ltac:(lia)) as [r Hr].
      rewrite HR, Hr.
      assert (Hr_obj : is_object r = true).
      { rewrite Forall_forall in Hobj. apply Hobj.
        eapply list_elem_of_lookup_2. exact Hr. }
      destruct r as [| | | | | |fields]; try discriminate.
      destruct (verdict_value_obj fields) as (v & Hv & _).
      pose proof (Hkeys i ltac:(lia)) as Hk. rewrite <- HT in Hk.
      rewrite (callback_ok st i _ v Hv Hk). cbn [bind].
      apply IH; cbn [results tests bySpec]; try assumption; try lia.
      rewrite HT. apply (Hstep i (bySpec st) _ v Hi Hr Hv). }
  apply Hloop; auto.
Qed.

Lemma cases_for_app (T : list Test) (k : jsstring) (i : nat)
    (a b : list value) :
  cases_for T k i (a ++ b)
  = cases_for T k i a ++ cases_for T k (i + length a) b.
Proof.
  revert i. induction a as [|r a IH]; intros i.
  - cbn [app cases_for length]. rewrite Nat.add_0_r. reflexivity.
  - cbn [app cases_for length]. rewrite IH, <- app_assoc.
    replace (S i + length a)%nat with (i + S (length a))%nat by lia.
    reflexivity.
Qed.

Lemma group_of_cons (l : list Case) :
  l <> [] ->
  group_of l
  = Some {| pass := length (List.filter (fun c => truthy (case_success c)) l);
            fail := length (List.filter
                              (fun c => negb (truthy (case_success c))) l);
            cases := l |}.
Proof. destruct l; [congruence|reflexivity]. Qed.

Lemma group_of_record (cs : list Case) (c : Case) :
  Some (record_case (default new_group (group_of cs)) c) = group_of (cs ++ [c]).
Proof.
  rewrite (group_of_cons (cs ++ [c])) by (destruct cs; discriminate).
  rewrite !List.filter_app, !length_app. cbn [List.filter].
  unfold record_case. destruct cs as [|c0 cs].
  - cbn [group_of from_option id]. unfold new_group. cbn [pass fail cases].
    destruct (truthy (case_success c)); reflexivity.
  - rewrite (group_of_cons (c0 :: cs)) by discriminate.
    cbn [from_option id pass fail cases].
    destruct (truthy (case_success c)); cbn [negb length];
      f_equal; f_equal; lia.
Qed.

Lemma cases_for_increasing (T : list Test) (k : jsstring) (i : nat)
    (rs : list value) :
  increasing_from i (map case_index (cases_for T k i rs)) = true.
Proof.
  revert i. induction rs as [|r rs IH]; intros i; [reflexivity|].
  cbn [cases_for]. 
  assert (Hup : forall lo l, increasing_from (S lo) l = true ->
                             increasing_from lo l = true).
  { intros lo [|n l]; [reflexivity|]. cbn [increasing_from].
    intros H. apply andb_true_iff in H as [H1 H2]. rewrite H2, andb_true_r.
    apply Nat.ltb_lt in H1. apply Nat.ltb_lt. lia. }
  destruct (bool_decide (specKey_of T i = k)); cbn [app map case_at case_index].
  - cbn [increasing_from]. replace (i + 1)%nat with (S i) by lia.
    rewrite IH, andb_true_r. apply Nat.ltb_lt. lia.
  - apply Hup, IH.
Qed.

Lemma aggregate_group_of (R : list value) (T : list Test) :
  Forall (fun r => is_object r = true) R ->
  (forall j, (j < length R)%nat -> inherited (specKey_of T j) = false) ->
  exists st,
    aggregate R T = Ok st
    /\ forall k, bySpec st !! k = group_of (cases_for T k 0 R).
Proof.
  intros Hobj Hkeys.
  assert (H0 : forall k : jsstring,
             (∅ : gmap jsstring Group) !! k
             = group_of (cases_for T k 0 (take 0 R))).
  { intros k. rewrite lookup_empty. reflexivity. }
  assert (Hstep : forall i (b : gmap jsstring Group) r v,
             (forall k, b !! k = group_of (cases_for T k 0 (take i R))) ->
             R !! i = Some r -> verdict_value r = Ok v ->
             forall k,
               <[specKey_of T i :=
                   record_case (default new_group (b !! specKey_of T i))
                     {| case_index := i + 1; case_success := v;
                        case_requirement := requirement_of T i |}]> b !! k
               = group_of (cases_for T k 0 (take (S i) R))).
  { intros i b r v Hi Hr Hv k.
    rewrite (take_S_r R i r Hr), cases_for_app. cbn [cases_for].
    rewrite length_take_le by (apply Nat.lt_le_incl, (lookup_lt_Some _ _ _ Hr)).
    rewrite app_nil_r, Nat.add_0_l.
    rewrite lookup_insert. case_decide as Hk.
    - subst k. rewrite bool_decide_eq_true_2 by reflexivity.
      rewrite Hi. unfold case_at, verdict_of. rewrite Hv.
      apply group_of_record.
    - rewrite bool_decide_eq_false_2 by exact Hk. rewrite app_nil_r. apply Hi. }
  destruct (aggregate_invariant R T
              (fun i b => forall k, b !! k = group_of (cases_for T k 0 (take i R)))
              H0 Hstep Hobj Hkeys) as (st & Hagg & Hinv).
  exists st. split; [exact Hagg|]. intros k.
  rewrite Hinv, firstn_all. reflexivity.
Qed.

Lemma increasing_filter (f : Case -> bool) (lo : nat) (l : list Case) :
  increasing_from lo (map case_index l) = true ->
  increasing_from lo (map case_index (List.filter f l)) = true.
Proof.
  revert lo. induction l as [|c l IH]; intros lo; [reflexivity|].
  cbn [map increasing_from List.filter]. intros H.
  apply andb_true_iff in H as [H1 H2].
  destruct (f c).
  - cbn [map increasing_from]. rewrite H1. apply IH, H2.
  - apply IH. destruct l as [|c' l]; [reflexivity|].
    cbn [map increasing_from] in *. apply andb_true_iff in H2 as [H2 H3].
    rewrite H3, andb_true_r. apply Nat.ltb_lt in H1, H2. apply Nat.ltb_lt. lia.
Qed.

End GroupFacts.

(** X10: the groups of the summary, completely.  After the loop of main
    (on entries that are objects and keys that are not inherited names), the
    group of a key holds, in the order of the result collection, exactly the
    cases of the entries correlated to that key, its pass count is the
    number of them that passed and its fail count the number that failed;
    a key that no entry is correlated to has no group. *)
Theorem aggregator_groups (R : list value) (T : list Test) :
  Forall (fun r => is_object r = true) R ->
  (forall j, (j < length R)%nat -> inherited (specKey_of T j) = false) ->
  exists st,
    aggregate R T = Ok st
    /\ (forall k, bySpec st !! k = group_of (cases_for T k 0 R))
    /\ (forall k g, bySpec st !! k = Some g ->
          cases g = cases_for T k 0 R
          /\ pass g = length (List.filter (fun c => truthy (case_success c))
                                (cases g))
          /\ fail g = length (failed_cases g)).
Proof.
  intros Hobj Hkeys.
  destruct (aggregate_group_of R T Hobj Hkeys) as (st & Hagg & Hg).
  exists st. split; [exact Hagg|]. split; [exact Hg|].
  intros k g Hk. rewrite Hg in Hk. unfold group_of in Hk.
  destruct (cases_for T k 0 R) as [|c cs]; [discriminate|].
  injection Hk as <-. unfold failed_cases. cbn [cases pass fail].
  repeat split.
Qed.

Lemma aggregator_groups_witness :
  exists st,
    aggregate [VObj [(js "success", VBool true)]; VObj []]
              [ {| metadata := {| spec_requirements := [js "tone"];
                                  requirement := js "be polite" |} |} ]
    = Ok st
    /\ cases <$> (bySpec st !! js "unknown")
       = Some [ {| case_index := 2; case_success := VUndefined;
                   case_requirement := [] |} ].
Proof.
  destruct (aggregator_groups
              [VObj [(js "success", VBool true)]; VObj []]
              [ {| metadata := {| spec_requirements := [js "tone"];
                                  requirement := js "be polite" |} |} ])
    as (st & H & Hg).
  - repeat constructor.
  - intros j Hj. simpl in Hj.
    destruct j as [|[|j]]; [reflexivity|reflexivity|lia].
  - exists st. split; [exact H|]. destruct Hg as [Hg _]. rewrite Hg. reflexivity.
Defined.

(** X11: the failed test indices the summary prints for a specification
    are strictly increasing ordinals, and there are as many of them as the
    fail count of the group says. *)
Theorem failed_indices_report (R : list value) (T : list Test) :
  Forall (fun r => is_object r = true) R ->
  (forall j, (j < length R)%nat -> inherited (specKey_of T j) = false) ->
  exists st,
    aggregate R T = Ok st
    /\ forall k g, bySpec st !! k = Some g ->
         length (failed_indices g) = fail g
         /\ increasing_from 0 (failed_indices g) = true
         /\ increasing_from 0 (map case_index (cases g)) = true.
Proof.
  intros Hobj Hkeys.
  destruct (aggregate_group_of R T Hobj Hkeys) as (st & Hagg & Hinv).
  exists st. split; [exact Hagg|]. intros k g Hg. rewrite Hinv in Hg.
  pose proof (cases_for_increasing T k 0 R) as Hinc.
  unfold group_of in Hg. destruct (cases_for T k 0 R) as [|c cs] eqn:E;
    [discriminate|]. injection Hg as <-.
  unfold failed_indices, failed_cases. cbn [cases fail].
  split; [apply length_map|]. split; [|exact Hinc].
  apply increasing_filter, Hinc.
Qed.

Lemma failed_indices_report_witness :
  exists st,
    aggregate [VObj [(js "success", VBool false)]; VObj []]
              [ {| metadata := {| spec_requirements := [js "tone"];
                                  requirement := [] |} |};
                {| metadata := {| spec_requirements := [js "tone"];
                                  requirement := [] |} |} ]
    = Ok st
    /\ forall g, bySpec st !! js "tone" = Some g ->
         length (failed_indices g) = fail g.
Proof.
  destruct (failed_indices_report
              [VObj [(js "success", VBool false)]; VObj []]
              [ {| metadata := {| spec_requirements := [js "tone"];
                                  requirement := [] |} |};
                {| metadata := {| spec_requirements := [js "tone"];
                                  requirement := [] |} |} ])
    as (st & H & Hg).
  - repeat constructor.
  - intros j Hj. simpl in Hj.
    destruct j as [|[|j]]; [reflexivity|reflexivity|lia].
  - exists st. split; [exact H|]. intros g Hk. apply (Hg _ g Hk).
Defined.

(** ** The loop of the failure extractor, and the two scripts together *)

Section ExtractLoopFacts.

Lemma well_formed_object (r : value) :
  well_formed_entry r = true -> is_object r = true.
Proof.
  intros H. apply well_formed_parts in H as (H & _ & _).
  unfold well_formed_grading in H.
  apply andb_true_iff in H as [H _]. apply andb_true_iff in H as [H _]. exact H.
Qed.

Lemma passes_verdict (fields : list (jsstring * value)) :
  exists v, verdict_value (VObj fields) = Ok v
            /\ passes (VObj fields) = truthy v.
Proof.
  destruct (verdict_value_obj fields) as (v & Hv & _).
  exists v. split; [exact Hv|]. unfold passes. rewrite Hv. reflexivity.
Qed.

Lemma extract_one_pass (i : nat) (r : value) :
  is_object r = true -> passes r = true -> extract_one i r = Ok None.
Proof.
  destruct r as [| | | | | |fields]; try discriminate. intros _ Hp.
  destruct (passes_verdict fields) as (v & Hv & Hpv).
  unfold extract_one. rewrite Hv. cbn [bind]. rewrite <- Hpv, Hp. reflexivity.
Qed.

(** On a well-formed failing entry the callback pushes a record with the
    ordinal of the entry. *)
Lemma extract_one_fail (i : nat) (r : value) :
  well_formed_entry r = true -> passes r = false ->
  exists f, extract_one i r = Ok (Some f) /\ testIndex f = (i + 1)%nat.
Proof.
  intros Hwf Hp. pose proof (well_formed_object r Hwf) as Hobj.
  destruct r as [| | | | | |fields]; try discriminate.
  set (r := VObj fields) in *.
  destruct (well_formed_parts r Hwf) as (Hgr & Hpi & Hpo).
  destruct (passes_verdict fields) as (v & Hv & Hpv). fold r in Hv, Hpv.
  destruct (from_components_spec r Hgr) as (fa & r1 & Hfc & _ & Hyes & Hno).
  assert (Htop : textual (top_reason r) = true).
  { unfold well_formed_grading in Hgr.
    apply andb_true_iff in Hgr as [_ H]. exact H. }
  assert (Hr2 : exists s, top_level_reason (flag r "gradingResult") fa r1
                          = Ok (VStr s)).
  { unfold top_level_reason. destruct (truthy fa) eqn:Hfa.
    - destruct (Hyes eq_refl) as [_ ->]. eexists. reflexivity.
    - cbn [negb andb]. destruct (truthy (flag r "gradingResult")) eqn:Hg.
      + rewrite (get_truthy _ "reason" Hg). cbn [bind].
        fold (top_reason r). rewrite (textual_or_else _ Htop).
        eexists. reflexivity.
      + rewrite (Hno eq_refl eq_refl). eexists. reflexivity. }
  destruct Hr2 as (s & Hr2).
  unfold extract_one. rewrite Hv. cbn [bind]. rewrite <- Hpv, Hp.
  change (get r "gradingResult") with (Ok (flag r "gradingResult")).
  cbn [bind]. rewrite Hfc. cbn [bind fst snd]. rewrite Hr2. cbn [bind].
  unfold r at 1 2. rewrite input_of_object, output_of_object. fold r.
  rewrite (field_text_spec _ Hpi), (field_text_spec _ Hpo).
  cbn [bind slice]. eexists. split; reflexivity.
Qed.

Lemma extract_from_spec (rs : list value) (i : nat) (acc : list FailureRecord) :
  Forall (fun r => well_formed_entry r = true) rs ->
  exists fs,
    extract_from i rs acc = Ok (acc ++ fs)
    /\ map testIndex fs = failing_from i rs
    /\ Forall (fun f => exists j r, rs !! j = Some r
                          /\ extract_one (i + j) r = Ok (Some f)) fs.
Proof.
  intros Hwf. revert i acc. induction Hwf as [|r rs Hr _ IH]; intros i acc.
  - exists []. rewrite app_nil_r. repeat split. constructor.
  - cbn [extract_from failing_from]. destruct (passes r) eqn:Hp.
    + rewrite (extract_one_pass i r (well_formed_object r Hr) Hp). cbn [bind].
      destruct (IH (S i) acc) as (fs & He & Hm & Hall).
      exists fs. split; [exact He|]. split; [exact Hm|].
      eapply Forall_impl; [exact Hall|]. intros f (j & r' & Hj & Hf).
      exists (S j), r'. split; [exact Hj|].
      replace (i + S j)%nat with (S i + j)%nat by lia. exact Hf.
    + destruct (extract_one_fail i r Hr Hp) as (f & Hf & Hidx).
      rewrite Hf. cbn [bind].
      destruct (IH (S i) (acc ++ [f])) as (fs & He & Hm & Hall).
      exists (f :: fs). rewrite <- app_assoc in He. split; [exact He|].
      split; [cbn [map app]; rewrite Hidx, Hm; reflexivity|].
      constructor.
      * exists O, r. split; [reflexivity|]. rewrite Nat.add_0_r. exact Hf.
      * eapply Forall_impl; [exact Hall|]. intros f' (j & r' & Hj & Hf').
        exists (S j), r'. split; [exact Hj|].
        replace (i + S j)%nat with (S i + j)%nat by lia. exact Hf'.
Qed.

Lemma failing_from_increasing (i : nat) (rs : list value) :
  increasing_from i (failing_from i rs) = true
  /\ Forall (fun n => (i < n <= i + length rs)%nat) (failing_from i rs).
Proof.
  revert i. induction rs as [|r rs IH]; intros i; [split; [reflexivity|constructor]|].
  destruct (IH (S i)) as [Hinc Hb]. cbn [failing_from length].
  assert (Hb' : Forall (fun n => (i < n <= i + S (length rs))%nat)
                  (failing_from (S i) rs)).
  { eapply Forall_impl; [exact Hb|]. intros n Hn. cbn beta in Hn. lia. }
  destruct (passes r); cbn [app].
  - split; [|exact Hb'].
    destruct (failing_from (S i) rs) as [|n l]; [reflexivity|].
    cbn [increasing_from] in *. apply andb_true_iff in Hinc as [H1 H2].
    rewrite H2, andb_true_r. apply Nat.ltb_lt in H1. apply Nat.ltb_lt. lia.
  - split.
    + cbn [increasing_from]. replace (i + 1)%nat with (S i) by lia.
      rewrite Hinc, andb_true_r. apply Nat.ltb_lt. lia.
    + constructor; [lia|exact Hb'].
Qed.

Lemma count_failing (T : list Test) (R : list value) :
  Forall (fun r => is_object r = true) R ->
  (forall j, (j < length R)%nat -> inherited (specKey_of T j) = false) ->
  exists st, aggregate R T = Ok st
    /\ totalFail (bySpec st) = length (failing_from 0 R).
Proof.
  intros Hobj Hkeys.
  assert (Hsnoc : forall (a : list value) r i,
             failing_from i (a ++ [r])
             = failing_from i a
               ++ (if passes r then [] else [(i + length a + 1)%nat])).
  { induction a as [|x a IH]; intros r i.
    - cbn [app failing_from length]. rewrite app_nil_r, Nat.add_0_r. reflexivity.
    - cbn [app failing_from length]. rewrite IH, <- app_assoc.
      replace (S i + length a + 1)%nat with (i + S (length a) + 1)%nat by lia.
      reflexivity. }
  destruct (aggregate_invariant R T
              (fun i b => totalFail b = length (failing_from 0 (take i R))))
    as (st & Hagg & Hinv); [reflexivity| |exact Hobj|exact Hkeys|].
  - intros i b r v Hi Hr Hv.
    rewrite totalFail_record, Hi, (take_S_r R i r Hr), Hsnoc, length_app.
    cbn [case_success]. unfold passes. rewrite Hv.
    destruct (truthy v); reflexivity.
  - exists st. split; [exact Hagg|]. rewrite firstn_all in Hinv. exact Hinv.
Qed.

End ExtractLoopFacts.

(** X12: the failure extractor is an order-preserving filter.  On
    well-formed entries it returns one record per failing entry and none for
    a passing one; the ordinals of the records are the positions (from 1) of
    the failing entries, strictly increasing and within 1..|R|, and every
    record is the one the callback builds for its entry. *)
Theorem extract_failures_ordinals (R : list value) :
  Forall (fun r => well_formed_entry r = true) R ->
  exists fs,
    extract_failures R = Ok fs
    /\ map testIndex fs = failing_from 0 R
    /\ increasing_from 0 (map testIndex fs) = true
    /\ Forall (fun n => (1 <= n <= length R)%nat) (map testIndex fs)
    /\ Forall (fun f => exists j r, R !! j = Some r
                          /\ extract_one j r = Ok (Some f)) fs.
Proof.
  intros Hwf. destruct (extract_from_spec R 0 [] Hwf) as (fs & He & Hm & Hall).
  exists fs. split; [exact He|]. split; [exact Hm|]. rewrite Hm.
  destruct (failing_from_increasing 0 R) as [Hinc Hb].
  split; [exact Hinc|]. split; [|exact Hall].
  eapply Forall_impl; [exact Hb|]. intros n Hn. cbn beta in Hn. lia.
Qed.

Lemma extract_failures_ordinals_witness :
  exists fs,
    extract_failures [VObj [(js "success", VBool true)]; VObj []] = Ok fs
    /\ map testIndex fs = [2%nat].
Proof.
  destruct (extract_failures_ordinals
              [VObj [(js "success", VBool true)]; VObj []])
    as (fs & He & Hm & _).
  - repeat constructor.
  - exists fs. split; [exact He|]. rewrite Hm. reflexivity.
Defined.

(** X13: the summary and the failure extractor agree.  On the same
    collection of well-formed result entries the total fail count of the
    summary is the number of records the extractor writes, and the total
    pass count is the number of the other entries. *)
Theorem summary_extract_agree (R : list value) (T : list Test) :
  Forall (fun r => well_formed_entry r = true) R ->
  (forall j, (j < length R)%nat -> inherited (specKey_of T j) = false) ->
  exists st fs,
    aggregate R T = Ok st
    /\ extract_failures R = Ok fs
    /\ totalFail (bySpec st) = length fs
    /\ (totalPass (bySpec st) + length fs)%nat = length R.
Proof.
  intros Hwf Hkeys.
  assert (Hobj : Forall (fun r => is_object r = true) R).
  { eapply Forall_impl; [exact Hwf|]. apply well_formed_object. }
  destruct (count_failing T R Hobj Hkeys) as (st & Hagg & Hfail).
  destruct (aggregate_folded R T Hobj Hkeys) as (st' & Hagg' & _ & _ & _ & Htot & _).
  rewrite Hagg in Hagg'. injection Hagg' as <-.
  destruct (extract_from_spec R 0 [] Hwf) as (fs & He & Hm & _).
  exists st, fs. split; [exact Hagg|]. split; [exact He|].
  assert (Hlen : length fs = length (failing_from 0 R)).
  { rewrite <- Hm. symmetry. apply length_map. }
  unfold total in Htot. split; lia.
Qed.

Lemma summary_extract_agree_witness :
  exists st fs,
    aggregate [VObj [(js "success", VBool true)]; VObj []] [] = Ok st
    /\ extract_failures [VObj [(js "success", VBool true)]; VObj []] = Ok fs
    /\ totalFail (bySpec st) = length fs.
Proof.
  destruct (summary_extract_agree
              [VObj [(js "success", VBool true)]; VObj []] [])
    as (st & fs & Ha & He & Hf & _).
  - repeat constructor.
  - intros j Hj. simpl in Hj.
    destruct j as [|[|j]]; [reflexivity|reflexivity|lia].
  - exists st, fs. auto.
Defined.

(** ** Inputs and outputs without a text *)

Section AbortFacts.

(** A failing entry with a well-formed grading part reaches the conversion
    of its input and output, which decide the outcome. *)
Lemma extract_one_fields (i : nat) (fields : list (jsstring * value)) :
  let r := VObj fields in
  well_formed_grading r = true -> passes r = false ->
  exists fa text,
    extract_one i r
    = let! inp := (if truthy (entry_input r)
                   then to_string (entry_input r) else Ok []) in
      let! out := (if truthy (entry_output r)
                   then to_string (entry_output r) else Ok []) in
      Ok (Some {| testIndex := i + 1;
                  input := slice0 500 inp;
                  output := slice0 800 out;
                  failingAssertion := fa;
                  reason := VStr (take 300 text) |}).
Proof.
  intros r Hgr Hp.
  destruct (passes_verdict fields) as (v & Hv & Hpv). fold r in Hv, Hpv.
  destruct (from_components_spec r Hgr) as (fa & r1 & Hfc & _ & Hyes & Hno).
  assert (Htop : textual (top_reason r) = true).
  { unfold well_formed_grading in Hgr.
    apply andb_true_iff in Hgr as [_ H]. exact H. }
  assert (Hr2 : exists s, top_level_reason (flag r "gradingResult") fa r1
                          = Ok (VStr s)).
  { unfold top_level_reason. destruct (truthy fa) eqn:Hfa.
    - destruct (Hyes eq_refl) as [_ ->]. eexists. reflexivity.
    - cbn [negb andb]. destruct (truthy (flag r "gradingResult")) eqn:Hg.
      + rewrite (get_truthy _ "reason" Hg). cbn [bind].
        fold (top_reason r). rewrite (textual_or_else _ Htop).
        eexists. reflexivity.
      + rewrite (Hno eq_refl eq_refl). eexists. reflexivity. }
  destruct Hr2 as (s & Hr2).
  exists (or_else fa (or_else (VStr s) (VStr sentinel))), s.
  unfold extract_one. rewrite Hv. cbn [bind]. rewrite <- Hpv, Hp.
  change (get r "gradingResult") with (Ok (flag r "gradingResult")).
  cbn [bind]. rewrite Hfc. cbn [bind fst snd]. rewrite Hr2. cbn [bind].
  unfold r at 1 2. rewrite input_of_object, output_of_object. fold r.
  destruct (if truthy (entry_input r) then to_string (entry_input r) else Ok [])
    as [inp|e]; [|reflexivity].
  cbn [bind].
  destruct (if truthy (entry_output r) then to_string (entry_output r) else Ok [])
    as [out|e]; reflexivity.
Qed.

Lemma extract_from_app (R1 rest : list value) (i : nat)
    (acc : list FailureRecord) :
  extract_from i (R1 ++ rest) acc
  = let! failures := extract_from i R1 acc in
    extract_from (i + length R1) rest failures.
Proof.
  revert i acc. induction R1 as [|r R1 IH]; intros i acc.
  - cbn [app extract_from bind length]. rewrite Nat.add_0_r. reflexivity.
  - cbn [app extract_from length]. destruct (extract_one i r) as [o|e];
      [|reflexivity].
    cbn [bind]. rewrite IH.
    replace (S i + length R1)%nat with (i + S (length R1))%nat by lia.
    reflexivity.
Qed.

End AbortFacts.

(** X24: an input or an output without a text aborts the extractor.  On a
    failing entry whose input or output is an object with an own property
    toString (or an array with such an element), the callback throws a
    TypeError, and so does the loop when the entries before it are well
    formed: the run ends before any record is written.  A passing entry is
    skipped before its input and output are read. *)
Theorem unprintable_field_aborts (R1 R2 : list value)
    (fields : list (jsstring * value)) :
  let r := VObj fields in
  Forall (fun x => well_formed_entry x = true) R1 ->
  well_formed_grading r = true ->
  printable (entry_input r) && printable (entry_output r) = false ->
  (passes r = false ->
   extract_one (length R1) r = Throw TypeError
   /\ extract_failures (R1 ++ r :: R2) = Throw TypeError)
  /\ (passes r = true -> extract_one (length R1) r = Ok None).
Proof.
  intros r Hwf Hgr Hun. split.
  - intros Hp.
    assert (Hone : extract_one (length R1) r = Throw TypeError).
    { destruct (extract_one_fields (length R1) fields Hgr Hp)
        as (fa & text & He).
      unfold r at 1. rewrite He. fold r.
      destruct (printable (entry_input r)) eqn:Hi.
      - rewrite (field_text_spec _ Hi). cbn [bind].
        rewrite (field_text_throws (entry_output r)); [reflexivity|].
        exact Hun.
      - rewrite (field_text_throws _ Hi). reflexivity. }
    split; [exact Hone|].
    unfold extract_failures. rewrite extract_from_app.
    destruct (extract_from_spec R1 0 [] Hwf) as (fs & -> & _).
    cbn [bind app extract_from]. rewrite Nat.add_0_l, Hone. reflexivity.
  - intros Hp. apply extract_one_pass; [reflexivity|exact Hp].
Qed.

Lemma unprintable_field_aborts_witness :
  extract_failures
    [VObj [(js "success", VBool true)];
     VObj [(js "response",
            VObj [(js "output", VObj [(js "toString", VStr (js "x"))])])]]
  = Throw TypeError.
Proof.
  apply (unprintable_field_aborts [VObj [(js "success", VBool true)]] []
           [(js "response",
             VObj [(js "output", VObj [(js "toString", VStr (js "x"))])])]).
  - repeat constructor.
  - reflexivity.
  - reflexivity.
  - reflexivity.
Defined.

(** ** Names inherited from Object.prototype as group keys *)

Section InheritedFacts.

Lemma callback_inherited (st : store) (i : nat) (fields : list (jsstring * value)) :
  bySpec st !! specKey_of (tests st) i = None ->
  inherited (specKey_of (tests st) i) = true ->
  callback st i (VObj fields) = Throw TypeError.
Proof.
  intros Hnone Hinh. unfold callback. rewrite Hnone, Hinh.
  destruct (verdict_value_obj fields) as (v & -> & _). cbn [bind].
  rewrite Hnone. reflexivity.
Qed.

Lemma forEach_inherited (R : list value) (T : list Test) (n i : nat) (st : store) :
  results st = R -> tests st = T ->
  (forall k, is_Some (bySpec st !! k) -> inherited k = false) ->
  (i + n)%nat = length R ->
  Forall (fun r => is_object r = true) R ->
  (exists j, (i <= j < i + n)%nat /\ inherited (specKey_of T j) = true) ->
  forEach_results n i st = Throw TypeError.
Proof.
  intros HR HT Hown Hlen Hobj. revert i st HR HT Hown Hlen.
  induction n as [|n IH]; intros i st HR HT Hown Hlen (j & Hj & Hinh); [lia|].
  cbn [forEach_results].
  destruct (lookup_lt_is_Some_2 R i ltac:(lia)) as [r Hr]. rewrite HR, Hr.
  assert (Hr_obj : is_object r = true).
  { rewrite Forall_forall in Hobj. apply Hobj.
    eapply list_elem_of_lookup_2. exact Hr. }
  destruct r as [| | | | | |fields]; try discriminate.
  destruct (inherited (specKey_of T i)) eqn:Hi.
  - rewrite callback_inherited; [reflexivity| |rewrite HT; exact Hi].
    rewrite HT. destruct (bySpec st !! specKey_of T i) eqn:E; [|reflexivity].
    rewrite (Hown _ (mk_is_Some _ _ E)) in Hi. discriminate.
  - destruct (verdict_value_obj fields) as (v & Hv & _).
    rewrite <- HT in Hi. rewrite (callback_ok st i _ v Hv Hi). cbn [bind].
    apply IH; cbn [results tests bySpec]; try assumption; try lia.
    + intros k Hk. rewrite lookup_insert in Hk. case_decide as Hkey.
      * subst k. exact Hi.
      * apply Hown, Hk.
    + exists j. split; [|exact Hinh].
      assert (j <> i) by (intros ->; rewrite HT in Hi; congruence). lia.
Qed.

End InheritedFacts.

(** X14: a specification named like a property that objects inherit from
    Object.prototype (constructor, toString, ...) stops the summary: when
    the group key of any result entry is such a name, the loop of main
    throws a TypeError instead of counting the entry. *)
Theorem inherited_key_throws (R : list value) (T : list Test) (j : nat) :
  Forall (fun r => is_object r = true) R ->
  (j < length R)%nat ->
  inherited (specKey_of T j) = true ->
  aggregate R T = Throw TypeError.
Proof.
  intros Hobj Hj Hinh. unfold aggregate.
  apply (forEach_inherited R T);
    [reflexivity|reflexivity| |reflexivity|exact Hobj|].
  - intros k [g Hg]. cbn [bySpec] in Hg. rewrite lookup_empty in Hg.
    discriminate.
  - exists j. split; [lia|exact Hinh].
Qed.

Lemma inherited_key_throws_witness :
  aggregate [VObj [(js "success", VBool true)]]
            [ {| metadata := {| spec_requirements := [js "constructor"];
                                requirement := [] |} |} ]
  = Throw TypeError.
Proof.
  apply (inherited_key_throws _ _ 0).
  - repeat constructor.
  - simpl. lia.
  - reflexivity.
Defined.

(** ** Result shapes *)

(** X15: the summary and the extractor accept the same shapes of result
    data.  For data that is an object, neither throws; a flat array under
    [results] is taken as it is by both, a missing or empty [results] gives
    the empty array in both, and for a nested object they choose the same
    collection unless it has both a non-empty [outputs] and a non-empty
    [results]: then the summary reads [outputs] and the extractor
    [results]. *)
Theorem result_shapes_agree (fields : list (jsstring * value)) :
  let data := VObj fields in
  let raw := flag data "results" in
  let o := flag raw "outputs" in
  let r := flag raw "results" in
  exists a b,
    results_of_summary data = Ok a
    /\ results_of_extract data = Ok b
    /\ (is_array raw = true -> a = raw /\ b = raw)
    /\ (truthy raw = false -> a = VArr [] /\ b = VArr [])
    /\ (is_array raw = false -> truthy raw = true ->
        a = or_else (or_else o r) (VArr [])
        /\ b = or_else (or_else r o) (VArr []))
    /\ (truthy o && truthy r = false -> a = b).
Proof.
  intros data raw o r.
  unfold results_of_summary, results_of_extract.
  change (get data "results") with (Ok raw). cbn [bind].
  destruct (is_array raw) eqn:Harr.
  - assert (Ht : truthy raw = true) by (destruct raw; try discriminate; reflexivity).
    rewrite Ht. cbn [bind]. unfold or_else at 1. rewrite Ht.
    exists raw, raw. repeat split; try congruence.
  - destruct (truthy raw) eqn:Ht.
    + rewrite !(get_truthy raw _ Ht). fold o r. cbn [bind].
      assert (Ha : (let! nested := (if truthy o then Ok o else Ok r) in
                    Ok (or_else nested (VArr [])))
                   = Ok (or_else (or_else o r) (VArr []))).
      { destruct (truthy o) eqn:Ho; cbn [bind];
          rewrite ?(or_else_truthy o r Ho), ?(or_else_falsy o r Ho);
          reflexivity. }
      assert (Hb : (let! nested := (if truthy r then Ok r else Ok o) in
                    Ok (or_else nested (VArr [])))
                   = Ok (or_else (or_else r o) (VArr []))).
      { destruct (truthy r) eqn:Hr; cbn [bind];
          rewrite ?(or_else_truthy r o Hr), ?(or_else_falsy r o Hr);
          reflexivity. }
      rewrite Ha, Hb. eexists _, _. repeat split; try discriminate.
      intros Hor.
      destruct (truthy o) eqn:Ho, (truthy r) eqn:Hr; try discriminate;
        rewrite ?(or_else_truthy o r Ho), ?(or_else_falsy o r Ho),
          ?(or_else_truthy r o Hr), ?(or_else_falsy r o Hr);
        try reflexivity.
      rewrite (or_else_falsy o _ Ho), (or_else_falsy r _ Hr). reflexivity.
    + cbn [bind]. unfold or_else. rewrite Ht.
      exists (VArr []), (VArr []). repeat split; try discriminate.
Qed.

(** ** The output path of the patcher *)

Section PathFacts.

Lemma strip_suffix_Some (suf s stem : jsstring) :
  strip_suffix suf s = Some stem -> s = stem ++ suf.
Proof.
  unfold strip_suffix. destruct (strip_prefix (rev suf) (rev s)) as [r|] eqn:E;
    [|discriminate].
  intros [= <-]. apply strip_prefix_Some in E.
  rewrite <- (rev_involutive s), E, rev_app_distr, rev_involutive. reflexivity.
Qed.

Lemma patchYaml_other_path (fs : gmap jsstring jsstring)
    (yamlPath outputPath p : jsstring) (failures : list failure)
    (refinements : list refinement) :
  p <> outputPath ->
  fst (patchYaml fs yamlPath failures refinements outputPath) !! p = fs !! p.
Proof.
  intros Hp. unfold patchYaml. destruct (fs !! yamlPath); [|reflexivity].
  destruct (patch_text _ failures refinements); [|reflexivity].
  cbn [fst]. apply lookup_insert_ne. congruence.
Qed.

End PathFacts.

(** X16: with the default output path the original is kept.  When the
    path of the test file ends in ".yaml" and no output path is given, the
    output path is another path (ending in "_refined.yaml"), and after
    patchYaml, whether it wrote or threw, the test file holds what it held
    and so does every file other than the output. *)
Theorem default_output_keeps_original (fs : gmap jsstring jsstring)
    (yamlPath stem : jsstring) (failures : list failure)
    (refinements : list refinement) :
  strip_suffix (js ".yaml") yamlPath = Some stem ->
  let outputPath := outputPath_of None yamlPath in
  let fs' := fst (patchYaml fs yamlPath failures refinements outputPath) in
  outputPath = stem ++ js "_refined.yaml"
  /\ outputPath <> yamlPath
  /\ fs' !! yamlPath = fs !! yamlPath
  /\ forall p, p <> outputPath -> fs' !! p = fs !! p.
Proof.
  intros Hs outputPath fs'.
  assert (Hout : outputPath = stem ++ js "_refined.yaml").
  { unfold outputPath, outputPath_of, refined_path. rewrite Hs. reflexivity. }
  assert (Hne : outputPath <> yamlPath).
  { rewrite Hout, (strip_suffix_Some _ _ _ Hs). intros H.
    apply (f_equal (@length N)) in H. rewrite !length_app in H.
    change (length (js "_refined.yaml")) with 13%nat in H.
    change (length (js ".yaml")) with 5%nat in H. lia. }
  split; [exact Hout|]. split; [exact Hne|].
  split; [apply patchYaml_other_path; congruence|].
  intros p Hp. apply patchYaml_other_path, Hp.
Qed.

Lemma default_output_keeps_original_witness :
  outputPath_of None (js "cases/t1.yaml") = js "cases/t1_refined.yaml".
Proof.
  apply (default_output_keeps_original ∅ (js "cases/t1.yaml") (js "cases/t1")
           [] []).
  reflexivity.
Defined.

(** X17: without the ".yaml" ending the original is overwritten.  When
    the path of the test file does not end in ".yaml" and no output path is
    given (or an empty one), the output path is the path of the test file
    itself, and a successful patchYaml replaces the test file by the
    patched text. *)
Theorem default_output_overwrites (fs : gmap jsstring jsstring)
    (yamlPath yaml newYaml : jsstring) (failures : list failure)
    (refinements : list refinement) :
  strip_suffix (js ".yaml") yamlPath = None ->
  fs !! yamlPath = Some yaml ->
  patch_text yaml failures refinements = Ok newYaml ->
  outputPath_of None yamlPath = yamlPath
  /\ outputPath_of (Some []) yamlPath = yamlPath
  /\ fst (patchYaml fs yamlPath failures refinements
            (outputPath_of None yamlPath)) !! yamlPath = Some newYaml.
Proof.
  intros Hs Hfs Hp.
  assert (Hout : outputPath_of None yamlPath = yamlPath).
  { unfold outputPath_of, refined_path. rewrite Hs. reflexivity. }
  split; [exact Hout|]. split; [exact Hout|].
  rewrite Hout. unfold patchYaml. rewrite Hfs, Hp. cbn [fst].
  apply lookup_insert_eq.
Qed.

Lemma default_output_overwrites_witness :
  let yaml := js "x" ++ [nl] ++ js "tests:" ++ [nl] ++ js "- vars:" ++ [nl]
              ++ js "  value: a" in
  fst (patchYaml {[js "t1.yml" := yaml]} (js "t1.yml")
         [{| f_testIndex := 1; f_failingAssertion := js "a" |}]
         [{| r_testIndex := 1; r_refinedAssertion := js "b" |}]
         (outputPath_of None (js "t1.yml"))) !! js "t1.yml"
  = Some (js "x" ++ [nl] ++ js "tests:" ++ [nl] ++ js "- vars:" ++ [nl]
          ++ js "  value: 'b'").
Proof.
  intros yaml.
  apply (default_output_overwrites {[js "t1.yml" := yaml]} (js "t1.yml") yaml).
  - reflexivity.
  - reflexivity.
  - reflexivity.
Defined.

(** ** escapeHtml *)

Section HtmlFacts.

Lemma replace_char_absent (c d : N) (by_text s : jsstring) :
  Forall (fun x => x <> d) by_text ->
  (c = d \/ Forall (fun x => x <> d) s) ->
  Forall (fun x => x <> d) (replace_char c by_text s).
Proof.
  intros Hby Hs. unfold replace_char.
  induction s as [|x s IH]; [constructor|].
  cbn [flat_map]. apply Forall_app. split.
  - destruct (N.eqb_spec x c) as [->|Hx]; [exact Hby|].
    constructor; [|constructor].
    destruct Hs as [<-|Hs]; [exact Hx|]. apply Forall_cons in Hs as [H _]. exact H.
  - apply IH. destruct Hs as [H|Hs]; [left; exact H|right].
    apply Forall_cons in Hs as [_ H]. exact H.
Qed.

Lemma replace_char_clean (c : N) (by_text s : jsstring) :
  Forall (fun x => x <> c) s -> replace_char c by_text s = s.
Proof.
  unfold replace_char. induction 1 as [|x s Hx _ IH]; [reflexivity|].
  cbn [flat_map]. apply N.eqb_neq in Hx. rewrite Hx, IH. reflexivity.
Qed.

End HtmlFacts.

(** X18: escapeHtml leaves no markup character.  Whatever value it is
    given, its result contains no [<], no [>] and no double quote; it
    gives a result for every value that String gives a text for, and throws
    only what String throws; a text without [&], [<], [>] and double quote
    is returned as it is, and [null] and [undefined] give the empty text. *)
Theorem escapeHtml_safe :
  (forall v : value,
     match escapeHtml v with
     | Ok text => Forall (fun c => c <> 60 /\ c <> 62 /\ c <> 34) text
     | Throw e => to_string v = Throw e /\ printable v = false
     end)
  /\ (forall s : jsstring,
        Forall (fun c => c <> 38 /\ c <> 60 /\ c <> 62 /\ c <> 34) s ->
        escapeHtml (VStr s) = Ok s)
  /\ escapeHtml VNull = Ok [] /\ escapeHtml VUndefined = Ok [].
Proof.
  split; [|split; [|split; reflexivity]].
  - intros v.
    assert (H : forall s,
               Forall (fun c => c <> 60 /\ c <> 62 /\ c <> 34)
                 (replace_char 34 (js "&quot;")
                    (replace_char 62 (js "&gt;")
                       (replace_char 60 (js "&lt;")
                          (replace_char 38 (js "&amp;") s))))).
    { intros s.
      assert (H60 : Forall (fun x => x <> 60)
                      (replace_char 60 (js "&lt;") (replace_char 38 (js "&amp;") s))).
      { apply replace_char_absent; [repeat constructor; discriminate|left; reflexivity]. }
      assert (H62 : Forall (fun x => x <> 62)
                      (replace_char 62 (js "&gt;")
                         (replace_char 60 (js "&lt;")
                            (replace_char 38 (js "&amp;") s)))).
      { apply replace_char_absent; [repeat constructor; discriminate|left; reflexivity]. }
      assert (H60' : Forall (fun x => x <> 60)
                       (replace_char 62 (js "&gt;")
                          (replace_char 60 (js "&lt;")
                             (replace_char 38 (js "&amp;") s)))).
      { apply replace_char_absent; [repeat constructor; discriminate|right; exact H60]. }
      pose proof (replace_char_absent 34 60 (js "&quot;") _
                    ltac:(repeat constructor; discriminate) (or_intror H60')) as A.
      pose proof (replace_char_absent 34 62 (js "&quot;") _
                    ltac:(repeat constructor; discriminate) (or_intror H62)) as B.
      pose proof (replace_char_absent 34 34 (js "&quot;")
                    (replace_char 62 (js "&gt;")
                       (replace_char 60 (js "&lt;")
                          (replace_char 38 (js "&amp;") s)))
                    ltac:(repeat constructor; discriminate)
                    (or_introl eq_refl)) as C.
      rewrite Forall_forall in A, B, C. apply Forall_forall. intros c Hc.
      repeat split; [apply A|apply B|apply C]; exact Hc. }
    unfold escapeHtml. pose proof (to_string_spec v) as Hv.
    destruct v; try (constructor; fail);
      destruct (printable _) eqn:Hp;
      try (destruct Hv as (text & ->); cbn [bind]; apply H);
      destruct Hv as [-> _]; cbn [bind]; split; reflexivity.
  - intros s Hs. unfold escapeHtml. cbn [to_string bind]. f_equal.
    rewrite (replace_char_clean 38), (replace_char_clean 60),
      (replace_char_clean 62), (replace_char_clean 34);
      try reflexivity; (eapply Forall_impl; [exact Hs|]);
      intros c Hc; cbn beta in *; intuition congruence.
Qed.

(** ** Record Extractor *)

Section RecordFacts.

Lemma search_absent {A : Type} (lit : jsstring) (at_start : jsstring -> option A)
    (s : jsstring) :
  (forall t, strip_prefix lit t = None -> at_start t = None) ->
  includes lit s = false -> search at_start s = None.
Proof.
  intros Hlit. induction s as [|c s IH]; cbn [includes search]; intros H.
  - apply orb_false_iff in H as [H _]. unfold starts_with in H.
    rewrite Hlit; [reflexivity|]. destruct (strip_prefix lit []); congruence.
  - apply orb_false_iff in H as [H Hs]. unfold starts_with in H.
    rewrite Hlit; [apply IH, Hs|]. destruct (strip_prefix lit (c :: s)); congruence.
Qed.

Lemma search_found {A : Type} (P : A -> Prop) (at_start : jsstring -> option A)
    (s : jsstring) (x : A) :
  (forall t y, at_start t = Some y -> P y) ->
  search at_start s = Some x -> P x.
Proof.
  intros HP. induction s as [|c s IH]; cbn [search].
  - destruct (at_start []) eqn:E; [|discriminate]. intros [= <-]. eapply HP, E.
  - destruct (at_start (c :: s)) eqn:E; [|exact IH]. intros [= <-]. eapply HP, E.
Qed.

Lemma Forall_trim (P : N -> Prop) (s : jsstring) :
  Forall P s -> Forall P (trim s).
Proof.
  assert (Hstart : forall t, Forall P t -> Forall P (trim_start t)).
  { intros t Ht. unfold trim_start. destruct (span is_space t) as [a b] eqn:E.
    apply span_spec in E as (-> & _ & _). apply Forall_app in Ht as [_ H]. exact H. }
  intros H. unfold trim, trim_end.
  apply Forall_rev, Hstart, Forall_rev, Hstart, H.
Qed.

Lemma span_fst_all (p : N -> bool) (s : jsstring) :
  Forall (fun c => p c = true) (fst (span p s)).
Proof.
  destruct (span p s) as [a b] eqn:E. apply span_spec in E as (_ & H & _). exact H.
Qed.

Lemma spec_at_single_line (s m : jsstring) :
  spec_at s = Some m -> Forall (fun c => c <> nl) m.
Proof.
  unfold spec_at. destruct (strip_prefix _ s) as [r|]; [|discriminate].
  destruct (span is_space r) as [w r1]. destruct (existsb _ w); [|discriminate].
  destruct r1 as [|c r2]; [discriminate|]. destruct (c =? 45); [|discriminate].
  destruct (span is_space r2) as [w2 rest] eqn:E2. destruct rest as [|d rest].
  - destruct (span (fun c => c =? nl) (rev w2)) as [a b] eqn:E.
    apply span_spec in E as (_ & _ & Hb). cbn [snd].
    destruct b as [|c' [|c'' b]]; try discriminate.
    intros [= <-]. constructor; [|constructor].
    intros ->. cbn in Hb. discriminate.
  - destruct w2; [discriminate|].
    pose proof (span_fst_all (fun c => negb (c =? nl)) (d :: rest)) as Hall.
    intros H.
    assert (Hm : fst (span (fun c => negb (c =? nl)) (d :: rest)) = m)
      by congruence.
    rewrite Hm in Hall.
    eapply Forall_impl; [exact Hall|]. intros x Hx. cbn beta in Hx.
    intros ->. rewrite N.eqb_refl in Hx. discriminate.
Qed.

Lemma requirement_at_single_line (s m : jsstring) :
  requirement_at s = Some m -> Forall (fun c => is_line_terminator c = false) m.
Proof.
  unfold requirement_at. destruct (strip_prefix _ s) as [r|]; [|discriminate].
  destruct (span is_space r) as [w rest] eqn:E1. destruct rest as [|d rest].
  - destruct (span is_line_terminator (rev w)) as [a b] eqn:E.
    apply span_spec in E as (_ & _ & Hb). cbn [snd].
    destruct b as [|c b]; [discriminate|]. intros [= <-].
    constructor; [exact Hb|constructor].
  - pose proof (span_fst_all (fun c => negb (is_line_terminator c)) (d :: rest))
      as Hall.
    intros H.
    assert (Hm : fst (span (fun c => negb (is_line_terminator c)) (d :: rest)) = m)
      by congruence.
    rewrite Hm in Hall.
    eapply Forall_impl; [exact Hall|].
    intros x Hx. cbn beta in Hx. apply negb_true_iff, Hx.
Qed.

End RecordFacts.

(** X19: loadYAML degrades to defaults.  It yields one test per test
    block, in order, each with exactly one specification; the specification
    of a block without "spec_requirements:" is "unknown" and the requirement
    of a block without "requirement:" is the empty text. *)
Theorem loadYAML_defaults (raw : jsstring) :
  length (loadYAML raw) = length (testBlocks raw)
  /\ Forall2
       (fun block t =>
          (exists k, spec_requirements (metadata t) = [k])
          /\ (includes (js "spec_requirements:") block = false ->
              spec_requirements (metadata t) = [js "unknown"])
          /\ (includes (js "requirement:") block = false ->
              requirement (metadata t) = []))
       (testBlocks raw) (loadYAML raw).
Proof.
  unfold loadYAML. split; [apply length_map|].
  induction (testBlocks raw) as [|block blocks IH]; [constructor|].
  cbn [map]. constructor; [|exact IH].
  unfold test_of_block. cbn [metadata spec_requirements requirement].
  split; [|split].
  - destruct (search spec_at block); eauto.
  - intros H. rewrite (search_absent (js "spec_requirements:") spec_at block);
      [reflexivity| |exact H].
    intros t Ht. unfold spec_at. rewrite Ht. reflexivity.
  - intros H. rewrite (search_absent (js "requirement:") requirement_at block);
      [reflexivity| |exact H].
    intros t Ht. unfold requirement_at. rewrite Ht. reflexivity.
Qed.

(** X20: what loadYAML extracts is trimmed and taken from one line: the
    specification and the requirement of every test have no white space at
    either end, the specification holds no newline and the requirement no
    line terminator. *)
Theorem loadYAML_trimmed (raw : jsstring) :
  Forall
    (fun t =>
       Forall (fun k => trim k = k /\ Forall (fun c => c <> nl) k)
         (spec_requirements (metadata t))
       /\ trim (requirement (metadata t)) = requirement (metadata t)
       /\ Forall (fun c => is_line_terminator c = false)
            (requirement (metadata t)))
    (loadYAML raw).
Proof.
  unfold loadYAML. apply Forall_map, Forall_forall. intros block _.
  unfold test_of_block. cbn [metadata spec_requirements requirement].
  split; [|split].
  - destruct (search spec_at block) as [m|] eqn:E.
    + constructor; [|constructor]. split; [apply trim_idempotent|].
      apply Forall_trim.
      apply (search_found (fun m => Forall (fun c => c <> nl) m) spec_at block m);
        [|exact E].
      intros t y. apply spec_at_single_line.
    + constructor; [|constructor]. split; [reflexivity|].
      repeat constructor; discriminate.
  - destruct (search requirement_at block); [apply trim_idempotent|reflexivity].
  - destruct (search requirement_at block) as [m|] eqn:E; [|constructor].
    apply Forall_trim.
    apply (search_found (fun m => Forall (fun c => is_line_terminator c = false) m)
             requirement_at block m); [|exact E].
    intros t y. apply requirement_at_single_line.
Qed.

(** ** Recommendations of a run, weak specifications, hints *)

Section AdviceFacts.

Lemma rate_lt (p n k : nat) :
  (0 < n)%nat ->
  Qltb (rate p n) (inject_Z (Z.of_nat k)) = true <-> (100 * p < k * n)%nat.
Proof.
  intros Hn. rewrite Qltb_lt. destruct n as [|n]; [lia|].
  unfold rate, Qlt, Qdiv, Qmult, Qinv, inject_Z. cbn [Qnum Qden].
  destruct (Z.of_nat (S n)) as [|q|q] eqn:E; try lia.
  cbn [Qnum Qden]. rewrite Pos.mul_1_l, Pos.mul_1_r, !Z.mul_1_r.
  assert (Hq : Z.pos q = Z.of_nat (S n)) by lia.
  rewrite Hq. split; intros H; nia.
Qed.

Lemma includes_trans (a b s : jsstring) :
  includes a b = true -> includes b s = true -> includes a s = true.
Proof.
  intros Hab Hbs.
  apply includes_true in Hab as (p1 & q1 & ->).
  apply includes_true in Hbs as (p2 & q2 & ->).
  replace (p2 ++ (p1 ++ a ++ q1) ++ q2) with ((p2 ++ p1) ++ a ++ (q1 ++ q2))
    by (rewrite <- !app_assoc; reflexivity).
  apply includes_app.
Qed.

Lemma total_pass_fail (R : list value) (T : list Test) :
  Forall (fun r => is_object r = true) R ->
  (forall j, (j < length R)%nat -> inherited (specKey_of T j) = false) ->
  exists st, aggregate R T = Ok st
    /\ total (bySpec st) = length R
    /\ totalFail (bySpec st) = length (failing_from 0 R).
Proof.
  intros Hobj Hkeys.
  destruct (count_failing T R Hobj Hkeys) as (st & Hagg & Hfail).
  destruct (aggregate_folded R T Hobj Hkeys) as (st' & Hagg' & _ & _ & _ & Htot & _).
  rewrite Hagg in Hagg'. injection Hagg' as <-. eauto.
Qed.

End AdviceFacts.

(** X21: the recommendations of a run.  For an empty result collection
    main gives the single line that asks to generate test cases.  For a
    non-empty one its overall guidance is the one line chosen by the rate
    of passing entries among all entries: low below 40, moderate from 40 and
    below 70, good from 70. *)
Theorem run_recommendations (R : list value) (T : list Test) :
  Forall (fun r => is_object r = true) R ->
  (forall j, (j < length R)%nat -> inherited (specKey_of T j) = false) ->
  exists st,
    aggregate R T = Ok st
    /\ (R = [] -> main_recommendations (bySpec st) = [RunGenerate])
    /\ (R <> [] ->
        let passed := (length R - length (failing_from 0 R))%nat in
        overall_guidance (main_recommendations (bySpec st))
        = if (100 * passed <? 40 * length R)%nat then [LowPassRate]
          else if (100 * passed <? 70 * length R)%nat then [ModeratePassRate]
          else [GoodBaseline]).
Proof.
  intros Hobj Hkeys.
  destruct (total_pass_fail R T Hobj Hkeys) as (st & Hagg & Htot & Hfail).
  exists st. split; [exact Hagg|]. split.
  - intros ->. cbn [length] in Htot.
    unfold main_recommendations, getRecommendations.
    rewrite Htot. reflexivity.
  - intros Hne passed. unfold main_recommendations.
    assert (Hlen : (0 < length R)%nat) by (destruct R; [congruence|simpl; lia]).
    rewrite overall_guidance_run by (rewrite Htot; exact Hlen).
    assert (Hpass : totalPass (bySpec st) = passed).
    { unfold total in Htot. unfold passed. lia. }
    rewrite Htot, Hpass.
    change 40%Q with (inject_Z (Z.of_nat 40)).
    change 70%Q with (inject_Z (Z.of_nat 70)).
    destruct (Nat.ltb_spec (100 * passed) (40 * length R)) as [H40|H40].
    + rewrite (proj2 (rate_lt passed (length R) 40 Hlen) H40). reflexivity.
    + destruct (Qltb (rate passed (length R)) (inject_Z (Z.of_nat 40))) eqn:E.
      { apply (rate_lt passed (length R) 40 Hlen) in E. lia. }
      destruct (Nat.ltb_spec (100 * passed) (70 * length R)) as [H70|H70].
      * rewrite (proj2 (rate_lt passed (length R) 70 Hlen) H70). reflexivity.
      * destruct (Qltb (rate passed (length R)) (inject_Z (Z.of_nat 70))) eqn:E7;
          [|reflexivity].
        apply (rate_lt passed (length R) 70 Hlen) in E7. lia.
Qed.

Lemma run_recommendations_witness :
  exists st,
    aggregate [VObj [(js "success", VBool true)]; VObj []] [] = Ok st
    /\ overall_guidance (main_recommendations (bySpec st)) = [ModeratePassRate].
Proof.
  destruct (run_recommendations [VObj [(js "success", VBool true)]; VObj []] [])
    as (st & Hagg & _ & Hg).
  - repeat constructor.
  - intros j Hj. simpl in Hj.
    destruct j as [|[|j]]; [reflexivity|reflexivity|lia].
  - exists st. split; [exact Hagg|]. rewrite (Hg ltac:(discriminate)).
    reflexivity.
Defined.

(** X22: a specification is named in the line of weak specifications
    exactly when it has a group in which fewer cases pass than fail (or that
    has no case at all); a group with as many passes as failures is not
    named. *)
Theorem weak_specs_flagged (b : gmap jsstring Group) (k : jsstring) :
  k ∈ weakSpecs b
  <-> exists g, b !! k = Some g
        /\ ((pass g < fail g)%nat \/ (pass g + fail g = 0)%nat).
Proof.
  unfold weakSpecs. rewrite list_elem_of_fmap. split.
  - intros ([k' g] & -> & Hin). apply list_elem_of_In, filter_In in Hin as [Hin Hf].
    apply list_elem_of_In, elem_of_map_to_list in Hin.
    exists g. split; [exact Hin|]. cbn [fst snd] in Hf.
    apply andb_true_iff in Hf as [Hf _].
    destruct (pass g + fail g)%nat as [|n] eqn:En; [right; reflexivity|left].
    change 50%Q with (inject_Z (Z.of_nat 50)) in Hf.
    apply (rate_lt (pass g) (S n) 50 ltac:(lia)) in Hf. lia.
  - intros (g & Hg & Hweak). exists (k, g). split; [reflexivity|].
    apply list_elem_of_In, filter_In. split.
    + apply list_elem_of_In, elem_of_map_to_list, Hg.
    + cbn [fst snd]. apply andb_true_iff. split.
      * destruct (pass g + fail g)%nat as [|n] eqn:En; [reflexivity|].
        change 50%Q with (inject_Z (Z.of_nat 50)).
        apply (rate_lt (pass g) (S n) 50 ltac:(lia)). lia.
      * apply Qle_bool_iff. unfold rate.
        destruct (pass g + fail g)%nat; [apply Qle_refl|].
        apply Qmult_le_0_compat; [|discriminate].
        apply Qle_shift_div_l; [reflexivity|].
        rewrite Qmult_0_l. unfold Qle. cbn. lia.
Qed.

(** X23: the hint for a forbidden-text assertion is never given to an
    assertion written with [!output.includes(]: whatever the case table of
    toLowerCase, an assertion whose lower-case text holds "includes(" gets
    the hint for missing words or missing text, so the forbidden-text hint
    is only reached by a text that holds "!output.includes" without an
    opening parenthesis after it.  A value that is not a non-empty text gets
    the general hint. *)
Theorem forbidden_hint_shadowed (toLowerCase : jsstring -> jsstring) :
  (forall s : jsstring,
     includes (js "!output.includes(") (toLowerCase s) = true ->
     getFailureHint toLowerCase (VStr s) <> HintForbiddenText)
  /\ (forall s : jsstring,
        getFailureHint toLowerCase (VStr s) = HintForbiddenText ->
        includes (js "!output.includes") (toLowerCase s) = true
        /\ includes (js "includes(") (toLowerCase s) = false)
  /\ (forall v : value,
        match v with VStr (_ :: _) => False | _ => True end ->
        getFailureHint toLowerCase v = HintAssertionFailed).
Proof.
  assert (Hshape : forall s : jsstring,
             getFailureHint toLowerCase (VStr s) = HintForbiddenText ->
             includes (js "!output.includes") (toLowerCase s) = true
             /\ includes (js "includes(") (toLowerCase s) = false).
  { intros [|c s]; [discriminate|]. unfold getFailureHint. cbn zeta.
    destruct (includes (js "includes(") (toLowerCase (c :: s))).
    - destruct (includes (js "&&") (toLowerCase (c :: s))); discriminate.
    - cbn [andb].
      destruct (includes (js "!output.includes") (toLowerCase (c :: s)));
        [auto|].
      destruct (includes (js ".test(output)") (toLowerCase (c :: s)));
        discriminate. }
  split; [|split; [exact Hshape|]].
  - intros s Hs Hf. destruct (Hshape s Hf) as [_ Hno].
    rewrite (includes_trans (js "includes(") (js "!output.includes(")
               (toLowerCase s) eq_refl Hs) in Hno.
    discriminate.
  - intros v Hv. destruct v as [| | | |[|c s]| |]; try reflexivity.
    contradiction.
Qed.
